(** * AdmiraltyTidalApiClient: tidal event store, listener and queries

    A shallow embedding of [AdmiraltyTidalApiClient.cpp]: the ISO-8601
    conversion, the JSON listener callbacks that assemble tidal events, and
    the queries [PreviousTidalEvent], [NextTidalEvent] and
    [TidalEvent::TimeFrom], together with the pieces of the Arduino core
    ([String]) and of the TimeLib library ([tmElements_t], [makeTime], the
    elapsed-time macros) that these functions call. *)

From Stdlib Require Import ZArith Lia String Ascii List Sorted.
From stdpp Require Import base list strings.
Import ListNotations.

Local Open Scope Z_scope.

(** ** Machine integers *)

Module Ints.

(** Conversion of a mathematical integer to an unsigned type of [bits] bits. *)
Definition wrap_unsigned (bits x : Z) : Z := x mod 2 ^ bits.

(** Conversion to a signed two's complement type of [bits] bits. *)
Definition wrap_signed (bits x : Z) : Z :=
  (x + 2 ^ (bits - 1)) mod 2 ^ bits - 2 ^ (bits - 1).

Definition uint8_t (x : Z) : Z := wrap_unsigned 8 x.
Definition uint32_t (x : Z) : Z := wrap_unsigned 32 x.

End Ints.

(** ** The Arduino [String] operations used by the client

    [String::substring] and [String::toInt] belong to the Arduino core, on
    which the source is built; they are written here as the core defines
    them. *)

Module Arduino.

Definition code (c : ascii) : Z := Z.of_N (N_of_ascii c).

(** [isspace] of the C locale: space and the controls 9..13. *)
Definition isspace (c : ascii) : bool :=
  (code c =? 32) || ((9 <=? code c) && (code c <=? 13)).

Definition isdigit (c : ascii) : bool := (48 <=? code c) && (code c <=? 57).

(** [String::substring(left, right)]: the bounds are swapped when
    [left > right], the result is empty when [left] is at or past the end,
    and [right] is clipped to the length. *)
Definition substring (left right : nat) (s : string) : string :=
  let (l, r) := if (right <? left)%nat then (right, left) else (left, right) in
  if (String.length s <=? l)%nat then EmptyString
  else String.substring l (Nat.min r (String.length s) - l) s.

(** The digit loop of [atol]: it stops at the first character that is not a
    decimal digit. *)
Fixpoint atol_digits (s : string) (acc : Z) : Z :=
  match s with
  | String c rest =>
      if isdigit c then atol_digits rest (acc * 10 + (code c - 48)) else acc
  | EmptyString => acc
  end.

Fixpoint skip_spaces (s : string) : string :=
  match s with
  | String c rest => if isspace c then skip_spaces rest else s
  | EmptyString => s
  end.

(** [atol]: leading white space, an optional sign, then decimal digits; the
    value is 0 when there is no digit.  The accumulator is a mathematical
    integer: the strings converted by the client have at most four
    characters, far below the range of [long]. *)
Definition atol (s : string) : Z :=
  match skip_spaces s with
  | String c rest =>
      if code c =? 45 then - atol_digits rest 0
      else if code c =? 43 then atol_digits rest 0
      else atol_digits (String c rest) 0
  | EmptyString => 0
  end.

(** [String::toInt()] is [atol] on the character buffer. *)
Definition toInt (s : string) : Z := atol s.

End Arduino.

(** ** TimeLib: calendar elements and the epoch conversion

    [tmElements_t], [makeTime] and the macros [numberOfHours],
    [numberOfMinutes], [SECS_PER_HOUR] come from the TimeLib library
    ([TimeLib.h], [Time.cpp]), the one whose [hoursToTime_t] macro the source
    mentions in [TimeFrom]; they are written here as the library defines
    them. *)

Module TimeLib.
Import Ints.

(** [tmElements_t]: seven [uint8_t] fields; [Year] is the offset from 1970. *)
Record tmElements_t : Type := mk_tm {
  Second : Z;
  Minute : Z;
  Hour : Z;
  Wday : Z;
  Day : Z;
  Month : Z;
  Year : Z
}.

(** A value-initialised [tmElements_t()], also what [memset(.., 0, ..)] leaves. *)
Definition tm_zero : tmElements_t := mk_tm 0 0 0 0 0 0 0.

Definition SECS_PER_MIN : Z := 60.
Definition SECS_PER_HOUR : Z := 3600.
Definition SECS_PER_DAY : Z := SECS_PER_HOUR * 24.

(** [numberOfMinutes(t)] is [((t) / SECS_PER_MIN) % SECS_PER_MIN]. *)
Definition numberOfMinutes (t : Z) : Z :=
  Z.rem (Z.quot t SECS_PER_MIN) SECS_PER_MIN.

(** [numberOfHours(t)] is [((t) % SECS_PER_DAY) / SECS_PER_HOUR]. *)
Definition numberOfHours (t : Z) : Z :=
  Z.quot (Z.rem t SECS_PER_DAY) SECS_PER_HOUR.

(** [LEAP_YEAR(Y)], with [Y] the offset from 1970. *)
Definition LEAP_YEAR (Y : Z) : bool :=
  (0 <? 1970 + Y)
  && (Z.rem (1970 + Y) 4 =? 0)
  && (negb (Z.rem (1970 + Y) 100 =? 0) || (Z.rem (1970 + Y) 400 =? 0)).

Definition monthDays : list Z := [31; 28; 31; 30; 31; 30; 31; 31; 30; 31; 30; 31].

(** First loop of [makeTime]: one more day for every leap year before [Year]. *)
Definition add_leap_days (year seconds : Z) : Z :=
  fold_left
    (fun sec i => if LEAP_YEAR (Z.of_nat i) then uint32_t (sec + SECS_PER_DAY) else sec)
    (seq 0 (Z.to_nat year)) seconds.

(** Second loop of [makeTime]: the days of the months before [Month], months
    counted from 1.  The table has 12 entries; the model reads 0 past its
    end, where the C++ reads outside the array. *)
Definition add_month_days (year month seconds : Z) : Z :=
  fold_left
    (fun sec i =>
       if (Z.of_nat i =? 2) && LEAP_YEAR year
       then uint32_t (sec + SECS_PER_DAY * 29)
       else uint32_t (sec + SECS_PER_DAY * nth (i - 1) monthDays 0))
    (seq 1 (Z.to_nat month - 1)) seconds.

(** The seconds [makeTime] has accumulated after its two loops, at the
    start of month [m] of year [1970 + y]. *)
Definition month_start_seconds (y m : Z) : Z :=
  add_month_days y m (add_leap_days y (uint32_t (y * (SECS_PER_DAY * 365)))).

(** [makeTime]: the sum is kept in a [uint32_t] and converted to [time_t],
    a signed integer of [time_t_bits] bits, on return. *)
Definition makeTime (time_t_bits : Z) (tm : tmElements_t) : Z :=
  let seconds := uint32_t (Year tm * (SECS_PER_DAY * 365)) in
  let seconds := add_leap_days (Year tm) seconds in
  let seconds := add_month_days (Year tm) (Month tm) seconds in
  let seconds := uint32_t (seconds + (Day tm - 1) * SECS_PER_DAY) in
  let seconds := uint32_t (seconds + Hour tm * SECS_PER_HOUR) in
  let seconds := uint32_t (seconds + Minute tm * SECS_PER_MIN) in
  let seconds := uint32_t (seconds + Second tm) in
  wrap_signed time_t_bits seconds.

End TimeLib.

(** ** What the client takes from its header and from the platform *)

(** The source includes [AdmiraltyTidalApiClient.h], which fixes the capacity
    [MAX_COUNT_TIDAL_EVENTS] of the event array, and is compiled for a
    platform that fixes the width of [time_t] and the [float] type with
    [String::toFloat].  None of them is in the source file: they are
    parameters of the model. *)
Class Platform : Type := {
  float : Type;
  float_zero : float;
  toFloat : string -> float;
  MAX_COUNT_TIDAL_EVENTS : nat;
  time_t_bits : Z
}.

(** ** The client *)

Section Client.
Context `{P : Platform}.
Import Ints TimeLib.

(** The fields of [TidalEvent] that the source reads and writes. *)
Record TidalEvent : Type := mk_event {
  isHighTide : bool;
  dateTime : string;
  tm : tmElements_t;
  heightM : float;
  epochTime : Z;
  isValid : bool
}.

(** Modelled from the spec: the class [TidalEvent] is declared in the header,
    which is not in the source file.  A default-constructed record,
    [TidalEvent()], has [isValid = false] and every numeric field at zero. *)
Definition TidalEvent_default : TidalEvent :=
  mk_event false EmptyString tm_zero float_zero 0 false.

Definition set_isHighTide (b : bool) (e : TidalEvent) : TidalEvent :=
  mk_event b (dateTime e) (tm e) (heightM e) (epochTime e) (isValid e).
Definition set_dateTime (s : string) (e : TidalEvent) : TidalEvent :=
  mk_event (isHighTide e) s (tm e) (heightM e) (epochTime e) (isValid e).
Definition set_tm (t : tmElements_t) (e : TidalEvent) : TidalEvent :=
  mk_event (isHighTide e) (dateTime e) t (heightM e) (epochTime e) (isValid e).
Definition set_heightM (h : float) (e : TidalEvent) : TidalEvent :=
  mk_event (isHighTide e) (dateTime e) (tm e) h (epochTime e) (isValid e).
Definition set_epochTime (t : Z) (e : TidalEvent) : TidalEvent :=
  mk_event (isHighTide e) (dateTime e) (tm e) (heightM e) t (isValid e).
Definition set_isValid (b : bool) (e : TidalEvent) : TidalEvent :=
  mk_event (isHighTide e) (dateTime e) (tm e) (heightM e) (epochTime e) b.

(** The members of [AdmiraltyApiClient] that the listener and the queries
    use: the array [tidalEvents] of [MAX_COUNT_TIDAL_EVENTS] records, the
    index of the record being assembled, the published count and the last
    key seen. *)
Record AdmiraltyApiClient : Type := mk_client {
  tidalEvents : list TidalEvent;
  eventIndex : nat;
  numberEvents : nat;
  currentKey : string
}.

(** [tidalEvents[i]] as a value.  Inside the array it is the stored record;
    the C++ reads outside the array for any other index, where the model
    gives the default record. *)
Definition event_at (events : list TidalEvent) (i : nat) : TidalEvent :=
  default TidalEvent_default (events !! i).

(** [tidalEvents[eventIndex].field = ...]: an update in place of one slot
    (no slot changes when the index is outside the array). *)
Definition update_current (f : TidalEvent -> TidalEvent)
    (c : AdmiraltyApiClient) : AdmiraltyApiClient :=
  mk_client (alter f (eventIndex c) (tidalEvents c))
            (eventIndex c) (numberEvents c) (currentKey c).

(** *** Queries *)

(** The loop of [PreviousTidalEvent] from index [i] with [remaining]
    iterations to go: keep the record while it is not after [time], stop at
    the first one that is. *)
Fixpoint previous_loop (events : list TidalEvent) (time : Z)
    (i remaining : nat) (bestMatch : TidalEvent) : TidalEvent :=
  match remaining with
  | O => bestMatch
  | S remaining' =>
      let te := event_at events i in
      if epochTime te <=? time
      then previous_loop events time (S i) remaining' te
      else bestMatch
  end.

Definition PreviousTidalEvent (c : AdmiraltyApiClient) (time : Z) : TidalEvent :=
  previous_loop (tidalEvents c) time 0 (numberEvents c) TidalEvent_default.

(** The loop of [NextTidalEvent]: stop at the first record after [time]. *)
Fixpoint next_loop (events : list TidalEvent) (time : Z)
    (i remaining : nat) (bestMatch : TidalEvent) : TidalEvent :=
  match remaining with
  | O => bestMatch
  | S remaining' =>
      let te := event_at events i in
      if time <? epochTime te
      then te
      else next_loop events time (S i) remaining' bestMatch
  end.

Definition NextTidalEvent (c : AdmiraltyApiClient) (time : Z) : TidalEvent :=
  next_loop (tidalEvents c) time 0 (numberEvents c) TidalEvent_default.

(** The entries [[0, numberEvents)] that the two loops read, in order. *)
Definition entries (c : AdmiraltyApiClient) : list TidalEvent :=
  map (event_at (tidalEvents c)) (seq 0 (numberEvents c)).

(** *** Time conversion *)

(** [convertFromIso8601]: six assignments to the fields of [tm_data], each
    converted to [uint8_t]; [Wday] is not written. *)
Definition convertFromIso8601 (time_string : string) (tm_data : tmElements_t)
    : tmElements_t :=
  mk_tm
    (uint8_t (Arduino.toInt (Arduino.substring 17 19 time_string)))
    (uint8_t (Arduino.toInt (Arduino.substring 14 16 time_string)))
    (uint8_t (Arduino.toInt (Arduino.substring 11 13 time_string)))
    (Wday tm_data)
    (uint8_t (Arduino.toInt (Arduino.substring 8 10 time_string)))
    (uint8_t (Arduino.toInt (Arduino.substring 5 7 time_string)))
    (uint8_t (Arduino.toInt (Arduino.substring 0 4 time_string) - 1970)).



(** *** JSON listener callbacks *)

Definition whitespace (ch : ascii) (c : AdmiraltyApiClient) : AdmiraltyApiClient := c.

Definition startDocument (c : AdmiraltyApiClient) : AdmiraltyApiClient :=
  mk_client (tidalEvents c) 0 0 (currentKey c).

Definition key (k : string) (c : AdmiraltyApiClient) : AdmiraltyApiClient :=
  mk_client (tidalEvents c) (eventIndex c) (numberEvents c) k.

Definition value (v : string) (c : AdmiraltyApiClient) : AdmiraltyApiClient :=
  if String.eqb (currentKey c) "EventType" then
    update_current (set_isHighTide (String.eqb v "HighWater")) c
  else if String.eqb (currentKey c) "DateTime" then
    update_current
      (fun e =>
         let e := set_dateTime v e in
         let e := set_tm tm_zero e in
         set_tm (convertFromIso8601 v (tm e)) e)
      c
  else if String.eqb (currentKey c) "Height" then
    update_current (set_heightM (toFloat v)) c
  else c.

Definition endArray (c : AdmiraltyApiClient) : AdmiraltyApiClient := c.

Definition endObject (c : AdmiraltyApiClient) : AdmiraltyApiClient :=
  let c := update_current (fun e => set_epochTime (makeTime time_t_bits (tm e)) e) c in
  let c := update_current (set_isValid true) c in
  if (eventIndex c <? MAX_COUNT_TIDAL_EVENTS - 1)%nat
  then mk_client (tidalEvents c) (S (eventIndex c)) (numberEvents c) (currentKey c)
  else c.

Definition endDocument (c : AdmiraltyApiClient) : AdmiraltyApiClient :=
  mk_client (tidalEvents c) (eventIndex c) (eventIndex c) (currentKey c).

Definition startArray (c : AdmiraltyApiClient) : AdmiraltyApiClient := c.

Definition startObject (c : AdmiraltyApiClient) : AdmiraltyApiClient := c.

(** The calls the streaming parser makes on its listener. *)
Inductive callback : Type :=
  | on_whitespace (ch : ascii)
  | on_startDocument
  | on_key (k : string)
  | on_value (v : string)
  | on_endArray
  | on_endObject
  | on_endDocument
  | on_startArray
  | on_startObject.

Definition listen (c : AdmiraltyApiClient) (cb : callback) : AdmiraltyApiClient :=
  match cb with
  | on_whitespace ch => whitespace ch c
  | on_startDocument => startDocument c
  | on_key k => key k c
  | on_value v => value v c
  | on_endArray => endArray c
  | on_endObject => endObject c
  | on_endDocument => endDocument c
  | on_startArray => startArray c
  | on_startObject => startObject c
  end.

(** A run of the parser over a stream: the listener sees the calls in order. *)
Definition parse (calls : list callback) (c : AdmiraltyApiClient) : AdmiraltyApiClient :=
  fold_left listen calls c.

(** *** [TidalEvent::TimeFrom] *)

Definition set_Hour (h : Z) (t : tmElements_t) : tmElements_t :=
  mk_tm (Second t) (Minute t) h (Wday t) (Day t) (Month t) (Year t).
Definition set_Minute (m : Z) (t : tmElements_t) : tmElements_t :=
  mk_tm (Second t) m (Hour t) (Wday t) (Day t) (Month t) (Year t).

(** [diff] is the difference of two [time_t] values, larger minus smaller;
    the model takes it in the integers. *)
Definition TimeFrom (e : TidalEvent) (time : Z) : tmElements_t :=
  let result := tm_zero in
  let diff := Z.max (epochTime e) time - Z.min (epochTime e) time in
  let result := set_Hour (uint8_t (numberOfHours diff)) result in
  let hoursAsTimeT := Hour result * SECS_PER_HOUR in
  let result := set_Minute (uint8_t (numberOfMinutes (diff - hoursAsTimeT))) result in
  result.

End Client.

Arguments TidalEvent_default {P}.

(** ** Reference definitions for the statements *)

(** The proleptic Gregorian calendar, counted in days from 1970-01-01: the
    calendar arithmetic the conversion is compared with.  It is written from
    the calendar rules, not from [makeTime]. *)
Module Gregorian.

Definition is_leap (y : Z) : bool :=
  (y mod 4 =? 0) && (negb (y mod 100 =? 0) || (y mod 400 =? 0)).

(** Days from 0001-01-01 to the first of January of year [y]. *)
Definition days_before_year (y : Z) : Z :=
  365 * (y - 1) + (y - 1) / 4 - (y - 1) / 100 + (y - 1) / 400.

Definition days_in_month (y m : Z) : Z :=
  if m =? 2 then (if is_leap y then 29 else 28)
  else if (m =? 4) || (m =? 6) || (m =? 9) || (m =? 11) then 30
  else 31.

(** Days from the first of January of [y] to the first of month [m]. *)
Definition days_before_month (y m : Z) : Z :=
  nth (Z.to_nat (m - 1)) [0; 31; 59; 90; 120; 151; 181; 212; 243; 273; 304; 334] 0
  + (if (2 <? m) && is_leap y then 1 else 0).

Definition days_from_epoch (y m d : Z) : Z :=
  days_before_year y - days_before_year 1970 + days_before_month y m + (d - 1).

(** Seconds from 1970-01-01T00:00:00 UTC to the given instant. *)
Definition utc_epoch (y m d hh mm ss : Z) : Z :=
  days_from_epoch y m d * 86400 + hh * 3600 + mm * 60 + ss.

Definition valid_date (y m d : Z) : Prop :=
  1 <= m <= 12 /\ 1 <= d <= days_in_month y m.

Definition valid_time (hh mm ss : Z) : Prop :=
  0 <= hh < 24 /\ 0 <= mm < 60 /\ 0 <= ss < 60.

End Gregorian.

(** Timestamps of the form [YYYY-MM-DDTHH:MM:SS] followed by any suffix. *)
Module Iso8601.

Definition digit (d : Z) : ascii := ascii_of_N (Z.to_N (48 + d)).

Definition two_digits (n : Z) (rest : string) : string :=
  String (digit (n / 10)) (String (digit (n mod 10)) rest).

Definition four_digits (n : Z) (rest : string) : string :=
  two_digits (n / 100) (two_digits (n mod 100) rest).

Definition format (y m d hh mm ss : Z) (suffix : string) : string :=
  four_digits y (String "-" (two_digits m (String "-" (two_digits d
    (String "T" (two_digits hh (String ":" (two_digits mm
      (String ":" (two_digits ss suffix)))))))))).




End Iso8601.

(** The listener calls of well-formed input: an object is a start, its
    key/value pairs and an end; a document is an array of objects. *)
Section Streams.
Context `{P : Platform}.

Definition fields_calls (fields : list (string * string)) : list callback :=
  flat_map (fun kv => [on_key (fst kv); on_value (snd kv)]) fields.

Definition object_calls (fields : list (string * string)) : list callback :=
  on_startObject :: fields_calls fields ++ [on_endObject].

Definition objects_calls (objects : list (list (string * string))) : list callback :=
  flat_map object_calls objects.

Definition document_calls (objects : list (list (string * string))) : list callback :=
  on_startDocument :: on_startArray :: objects_calls objects
    ++ [on_endArray; on_endDocument].

Definition is_document_boundary (cb : callback) : bool :=
  match cb with
  | on_startDocument | on_endDocument => true
  | _ => false
  end.

Definition is_endObject (cb : callback) : bool :=
  match cb with
  | on_endObject => true
  | _ => false
  end.

(** Calls made between the start and the end of one document. *)
Definition within_document (calls : list callback) : Prop :=
  Forall (fun cb => is_document_boundary cb = false) calls.

(** The number of records a stream finalizes: one for each end of object. *)
Definition count_finalized (calls : list callback) : nat :=
  length (List.filter is_endObject calls).

(** The stored entries are in time order: each one is not after the next. *)
Definition chronological (c : AdmiraltyApiClient) : Prop :=
  Sorted (fun a b => epochTime a <= epochTime b) (entries c).

(** What every callback keeps: the array has its declared size, and neither
    the index nor the published count goes past the last slot. *)
Definition store_invariant (c : AdmiraltyApiClient) : Prop :=
  length (tidalEvents c) = MAX_COUNT_TIDAL_EVENTS
  /\ (eventIndex c <= MAX_COUNT_TIDAL_EVENTS - 1)%nat
  /\ (numberEvents c <= MAX_COUNT_TIDAL_EVENTS - 1)%nat.

(** A client before any parse: an array of default records. *)
Definition fresh_client : AdmiraltyApiClient :=
  mk_client (replicate MAX_COUNT_TIDAL_EVENTS TidalEvent_default) 0 0 EmptyString.

(** The tidal event of the API as an object of the stream. *)
Definition tidal_object (eventType stamp height : string) : list (string * string) :=
  [("EventType", eventType); ("DateTime", stamp); ("Height", height)]%string.

End Streams.

(** A platform to evaluate the model on: a capacity of 30 records, a 32-bit
    [time_t], and heights kept as their decimal text. *)
Definition esp8266 : Platform :=
  {| float := string; float_zero := "0"; toFloat := fun s => s;
     MAX_COUNT_TIDAL_EVENTS := 30; time_t_bits := 32 |}.

(** The same with room for three records, for short evaluations. *)
Definition small_device : Platform :=
  {| float := string; float_zero := "0"; toFloat := fun s => s;
     MAX_COUNT_TIDAL_EVENTS := 3; time_t_bits := 32 |}.


(** Sample data: a store holding tides at the epoch times 100, 200 and 300. *)
Module Samples.

Definition tide_at (t : Z) : TidalEvent (P := esp8266) :=
  mk_event (P := esp8266) true EmptyString TimeLib.tm_zero "1.0"%string t true.

Definition three_tides : AdmiraltyApiClient (P := esp8266) :=
  mk_client ([tide_at 100; tide_at 200; tide_at 300]
               ++ replicate 27 (TidalEvent_default (P := esp8266)))
            3 3 EmptyString.

(** The two objects of the end-to-end scenario of the specification. *)
Definition high_water : list (string * string) :=
  tidal_object "HighWater" "2018-10-17T05:12:00" "4.2".
Definition low_water : list (string * string) :=
  tidal_object "LowWater" "2018-10-17T11:30:00" "1.1".

(** A stream that stops inside its second object: the document start, one
    whole object, then the start of another with one of its fields. *)
Definition truncated_stream : list callback :=
  [on_startArray] ++ object_calls high_water
    ++ [on_startObject; on_key "EventType"; on_value "LowWater"].

(** The client after a document start and as many objects as the array holds. *)
Definition full_client : AdmiraltyApiClient (P := esp8266) :=
  parse (on_startDocument :: on_startArray :: objects_calls (replicate 30 high_water))
        fresh_client.

End Samples.

(** ** Reference definitions for objects with any fields *)

Section Objects.
Context `{P : Platform}.
Import TimeLib.

(** The values an object gives for the key [k], in order, and the last of
    them. *)
Definition values_of (k : string) (fields : list (string * string)) : list string :=
  map snd (List.filter (fun kv => String.eqb (fst kv) k) fields).

Definition last_value (k : string) (fields : list (string * string)) : option string :=
  last (values_of k fields).

(** The record that the fields of an object should leave in a slot that held
    [e], before the object ends: each of the three keys the client knows
    overrides its part of the record with its last value, and a key that
    does not occur leaves its part as it was. *)
Definition gathered (fields : list (string * string)) (e : TidalEvent) : TidalEvent :=
  mk_event
    (from_option (fun v => String.eqb v "HighWater") (isHighTide e)
       (last_value "EventType" fields))
    (default (dateTime e) (last_value "DateTime" fields))
    (from_option (fun v => convertFromIso8601 v tm_zero) (tm e)
       (last_value "DateTime" fields))
    (from_option toFloat (heightM e) (last_value "Height" fields))
    (epochTime e) (isValid e).

(** The record after the end of the object: the epoch time of the gathered
    calendar fields, and the record marked valid. *)
Definition assembled (fields : list (string * string)) (e : TidalEvent) : TidalEvent :=
  set_isValid true
    (set_epochTime (makeTime time_t_bits (tm (gathered fields e))) (gathered fields e)).

(** The record of a tidal event of the API: every part comes from the three
    fields of its object. *)
Definition tidal_record (eventType stamp height : string) : TidalEvent :=
  mk_event (String.eqb eventType "HighWater") stamp
    (convertFromIso8601 stamp tm_zero) (toFloat height)
    (makeTime time_t_bits (convertFromIso8601 stamp tm_zero)) true.

(** The keys the client knows. *)
Definition known_key (k : string) : bool :=
  String.eqb k "EventType" || String.eqb k "DateTime" || String.eqb k "Height".

(** The callbacks that change nothing in the client. *)
Definition is_structural (cb : callback) : bool :=
  match cb with
  | on_whitespace _ | on_startArray | on_endArray | on_startObject => true
  | _ => false
  end.

(** The entries before the first one that is after [t]. *)
Fixpoint leading_not_after (t : Z) (l : list TidalEvent) : list TidalEvent :=
  match l with
  | [] => []
  | e :: rest => if epochTime e <=? t then e :: leading_not_after t rest else []
  end.

End Objects.

(** ** Reference definitions for calendar fields *)

Module Calendar.
Import TimeLib.

(** Calendar fields that name an instant from 1970 up to and including the
    year [1970 + last]. *)
Definition valid_tm (last : Z) (tm : tmElements_t) : Prop :=
  0 <= Year tm <= last
  /\ Gregorian.valid_date (1970 + Year tm) (Month tm) (Day tm)
  /\ Gregorian.valid_time (Hour tm) (Minute tm) (Second tm).

Definition second_of_day (tm : tmElements_t) : Z :=
  Hour tm * 3600 + Minute tm * 60 + Second tm.

(** The order of the calendar: year, then month, then day, then time. *)
Definition tm_before (a b : tmElements_t) : Prop :=
  Year a < Year b
  \/ (Year a = Year b
      /\ (Month a < Month b
          \/ (Month a = Month b
              /\ (Day a < Day b
                  \/ (Day a = Day b /\ second_of_day a < second_of_day b))))).

(** The instant of the fields in seconds of the Gregorian calendar. *)
Definition instant (tm : tmElements_t) : Z :=
  Gregorian.utc_epoch (1970 + Year tm) (Month tm) (Day tm)
    (Hour tm) (Minute tm) (Second tm).

(** Months counted from January 1970, and the month after a month. *)
Definition month_index (y m : Z) : Z := 12 * y + (m - 1).

Definition month_start_day (k : Z) : Z :=
  Gregorian.days_from_epoch (1970 + k / 12) (k mod 12 + 1) 1.

Definition month_length (k : Z) : Z :=
  Gregorian.days_in_month (1970 + k / 12) (k mod 12 + 1).

End Calendar.

(** ** The fetch *)

(** What [FetchTidalEvents] takes from outside the source file: the
    streaming JSON parser, whose [parse(c)] consumes one character and makes
    its calls on the listener, and three constants of the header. *)
Class Externals : Type := {
  parser_state : Type;
  parser_parse : parser_state -> ascii -> parser_state * list callback;
  ADMIRALTY_API_HOST : string;
  ADMIRALTY_STATIONS_URL : string;
  SSL_THUMBRPRINT_API : string
}.

(** The status codes of the header, by name. *)
Inductive fetch_status : Type :=
  | ADMIRALTY_API_SUCCESS
  | ADMIRALTY_API_HOSTBYNAME_FAILED
  | ADMIRALTY_API_CONNECT_FAILED
  | ADMIRALTY_API_SSL_VALIDATION_FAILED.

(** The calls [FetchTidalEvents] makes on [WiFi] and on its
    [WiFiClientSecure]. *)
Inductive net_call : Type :=
  | call_hostByName (host : string)
  | call_setInsecure
  | call_connect (ip port : Z)
  | call_verify (thumbprint host : string)
  | call_println (line : string)
  | call_connected
  | call_readStringUntil (terminator : ascii)
  | call_available
  | call_read
  | call_stop.

(** What the network answers to these calls: the address [hostByName] finds,
    if any; whether [connect] and [verify] succeed; the lines that
    [readStringUntil] returns while [connected()] holds, after the last of
    which [connected()] fails; the characters that [read()] returns while
    [available()] holds. *)
Record network : Type := mk_network {
  resolves : option Z;
  connects : bool;
  verifies : bool;
  header_lines : list string;
  body : list ascii
}.

Section Fetch.
Context `{P : Platform} `{X : Externals}.

(** The members of the client object that [FetchTidalEvents] uses, around
    the listener state. *)
Record ApiClientObject : Type := mk_object {
  store : AdmiraltyApiClient;
  jsonParser : parser_state;
  validateSslThumbprint : bool;
  stationId : string;
  apiSubscriptionKey : string
}.

(** The constructor: the parser is given this object as its listener, which
    the model has by construction, and the thumbprint validation is switched
    off; the other members are as their declarations leave them. *)
Definition AdmiraltyApiClient_new (members : ApiClientObject) : ApiClientObject :=
  mk_object (store members) (jsonParser members) false
            (stationId members) (apiSubscriptionKey members).

(** [String(numberDays)] for a [uint8_t]: the decimal numeral. *)
Definition String_of_uint8 (value : Z) : string :=
  let n := Ints.uint8_t value in
  if n <? 10 then String (Iso8601.digit n) EmptyString
  else if n <? 100 then
    String (Iso8601.digit (n / 10)) (String (Iso8601.digit (n mod 10)) EmptyString)
  else
    String (Iso8601.digit (n / 100))
      (String (Iso8601.digit (n / 10 mod 10))
         (String (Iso8601.digit (n mod 10)) EmptyString)).

(** [jsonParser.parse(c)]: the parser takes the character and the listener
    receives the calls it makes. *)
Definition jsonParser_parse (ch : ascii) (o : ApiClientObject) : ApiClientObject :=
  let (ps, calls) := parser_parse (jsonParser o) ch in
  mk_object (parse calls (store o)) ps (validateSslThumbprint o)
            (stationId o) (apiSubscriptionKey o).

(** The five lines of the request. *)
Definition request_lines (numberDays : Z) (o : ApiClientObject) : list string :=
  [ String.append "GET "
      (String.append ADMIRALTY_STATIONS_URL
         (String.append (stationId o)
            (String.append "/TidalEvents?duration="
               (String.append (String_of_uint8 numberDays) " HTTP/1.1"))));
    String.append "Host: " ADMIRALTY_API_HOST;
    String.append "Ocp-Apim-Subscription-Key:" (apiSubscriptionKey o);
    "Connection: close"%string;
    EmptyString ].

(** The loop over the headers: it reads lines while the connection holds
    and stops after a line that is a lone carriage return. *)
Fixpoint read_headers (lines : list string) : list net_call :=
  match lines with
  | [] => [call_connected]
  | line :: rest =>
      call_connected :: call_readStringUntil "010"%char
        :: (if String.eqb line (String "013"%char EmptyString) then []
            else read_headers rest)
  end.

(** The loop over the body: every character read goes to the parser. *)
Fixpoint read_body (chars : list ascii) (o : ApiClientObject)
    : list net_call * ApiClientObject :=
  match chars with
  | [] => ([call_available], o)
  | ch :: rest =>
      let (calls, o') := read_body rest (jsonParser_parse ch o) in
      (call_available :: call_read :: calls, o')
  end.

(** The part of [FetchTidalEvents] after the connection is accepted. *)
Definition exchange (net : network) (numberDays : Z) (o : ApiClientObject)
    : list net_call * ApiClientObject :=
  let (calls, o') := read_body (body net) o in
  (map call_println (request_lines numberDays o)
     ++ read_headers (header_lines net) ++ calls ++ [call_stop], o').

(** [FetchTidalEvents]: the status returned, the calls made in order, and
    the client object afterwards. *)
Definition FetchTidalEvents (net : network) (numberDays : Z) (o : ApiClientObject)
    : fetch_status * list net_call * ApiClientObject :=
  match resolves net with
  | None =>
      (ADMIRALTY_API_HOSTBYNAME_FAILED, [call_hostByName ADMIRALTY_API_HOST], o)
  | Some hostIp =>
      let calls :=
        [call_hostByName ADMIRALTY_API_HOST]
          ++ (if validateSslThumbprint o then [] else [call_setInsecure])
          ++ [call_connect hostIp 443] in
      if connects net then
        if validateSslThumbprint o then
          let calls := calls ++ [call_verify SSL_THUMBRPRINT_API ADMIRALTY_API_HOST] in
          if verifies net then
            let (rest, o') := exchange net numberDays o in
            (ADMIRALTY_API_SUCCESS, calls ++ rest, o')
          else (ADMIRALTY_API_SSL_VALIDATION_FAILED, calls, o)
        else
          let (rest, o') := exchange net numberDays o in
          (ADMIRALTY_API_SUCCESS, calls ++ rest, o')
      else (ADMIRALTY_API_CONNECT_FAILED, calls, o)
  end.

(** The lines written to the connection among a list of calls, in order. *)
Definition printed (calls : list net_call) : list string :=
  flat_map (fun call => match call with call_println line => [line] | _ => [] end) calls.

(** All the calls the parser makes on the listener for a run of
    characters. *)
Fixpoint body_calls (ps : parser_state) (chars : list ascii) : list callback :=
  match chars with
  | [] => []
  | ch :: rest =>
      let (ps', calls) := parser_parse ps ch in calls ++ body_calls ps' rest
  end.

End Fetch.

(** A parser to evaluate the model on: it makes no call; the three constants
    are sample values. *)
Definition silent_parser : Externals :=
  {| parser_state := unit;
     parser_parse := fun ps _ => (ps, []);
     ADMIRALTY_API_HOST := "admiraltyapi.azure-api.net";
     ADMIRALTY_STATIONS_URL := "/uktidalapi/api/V1/Stations/";
     SSL_THUMBRPRINT_API := "00 11 22" |}.

(** Sample data for the fetch: a client object over a fresh store, a network
    on which the host does not resolve, and one that accepts the connection
    and answers with one header line and an empty body. *)
Module FetchSamples.

Definition sample_object : ApiClientObject (P := esp8266) (X := silent_parser) :=
  mk_object (P := esp8266) (X := silent_parser)
    fresh_client tt true "0001" "my-key".

Definition unreachable : network := mk_network None false false [] [].

Definition answering : network :=
  mk_network (Some 167772161) true true
    [String "013"%char EmptyString] [" "%char].

End FetchSamples.

(** ** [TimeFrom] in the arithmetic of [time_t] *)

Section TimeFromMachine.
Context `{P : Platform}.
Import Ints TimeLib.

(** [TidalEvent::TimeFrom] with every [time_t] result kept in [time_t], a
    signed integer of [time_t_bits] bits: the difference [diff], the product
    [hoursAsTimeT] and the difference handed to [numberOfMinutes] wrap
    around where they do not fit.  [TimeFrom] above takes the same steps in
    the integers; the two agree whenever the distance between the event and
    the time fits [time_t]. *)
Definition TimeFrom_time_t (e : TidalEvent) (time : Z) : tmElements_t :=
  let result := tm_zero in
  let diff :=
    wrap_signed time_t_bits (Z.max (epochTime e) time - Z.min (epochTime e) time) in
  let result := set_Hour (uint8_t (numberOfHours diff)) result in
  let hoursAsTimeT := wrap_signed time_t_bits (Hour result * SECS_PER_HOUR) in
  let result :=
    set_Minute (uint8_t (numberOfMinutes (wrap_signed time_t_bits (diff - hoursAsTimeT))))
               result in
  result.

End TimeFromMachine.

(** A platform with a 64-bit [time_t], otherwise as [esp8266]. *)
Definition wide_time_t : Platform :=
  {| float := string; float_zero := "0"; toFloat := fun s => s;
     MAX_COUNT_TIDAL_EVENTS := 30; time_t_bits := 64 |}.

(** * Properties *)

(** ** Machine integers *)

Module IntsFacts.
Import Ints.

Lemma uint8_t_range x : 0 <= uint8_t x < 256.
Proof. unfold uint8_t, wrap_unsigned. apply Z.mod_pos_bound. reflexivity. Qed.

Lemma uint8_t_small x : 0 <= x < 256 -> uint8_t x = x.
Proof. intros H. unfold uint8_t, wrap_unsigned. apply Z.mod_small. lia. Qed.

Lemma uint32_t_small x : 0 <= x < 4294967296 -> uint32_t x = x.
Proof. intros H. unfold uint32_t, wrap_unsigned. apply Z.mod_small. lia. Qed.

Lemma wrap_signed_small bits x :
  0 < bits -> - 2 ^ (bits - 1) <= x < 2 ^ (bits - 1) -> wrap_signed bits x = x.
Proof.
  intros Hb Hx. unfold wrap_signed.
  assert (E : 2 ^ bits = 2 * 2 ^ (bits - 1)).
  { replace bits with (Z.succ (bits - 1)) at 1 by lia.
    rewrite Z.pow_succ_r by lia. reflexivity. }
  rewrite E, Z.mod_small; lia.
Qed.

End IntsFacts.
Import IntsFacts.

(** ** Queries over the store *)

Section Queries.
Context `{P : Platform}.
Implicit Types (c : AdmiraltyApiClient) (e te : TidalEvent) (t : Z).

Lemma filter_none {A} (Q : A -> Prop) `{forall x, Decision (Q x)} (l : list A) :
  (forall x, In x l -> ~ Q x) -> filter Q l = [].
Proof.
  induction l as [|a l IH]; intros Hl; [reflexivity|].
  rewrite filter_cons_False by (apply Hl; left; reflexivity).
  apply IH. intros x Hx. apply Hl. right. exact Hx.
Qed.

Lemma previous_loop_scan events t i n best :
  StronglySorted (fun a b => epochTime a <= epochTime b) (map (event_at events) (seq i n)) ->
  previous_loop events t i n best
  = default best (last (filter (fun e => epochTime e <= t) (map (event_at events) (seq i n)))).
Proof.
  revert i best. induction n as [|n IH]; intros i best Hs; [reflexivity|].
  cbn [previous_loop seq map] in *. inversion Hs as [|x l Hl Hx]; subst.
  destruct (Z.leb_spec (epochTime (event_at events i)) t) as [Hle|Hgt].
  - rewrite filter_cons_True by exact Hle.
    rewrite IH by exact Hl. rewrite last_cons.
    destruct (last _); reflexivity.
  - rewrite filter_cons_False by lia.
    rewrite filter_none; [reflexivity|].
    intros e He Hbad. rewrite List.Forall_forall in Hx.
    specialize (Hx e He). cbn in Hx. lia.
Qed.

Lemma chronological_strongly c :
  chronological c ->
  StronglySorted (fun a b => epochTime a <= epochTime b) (entries c).
Proof.
  intros H. apply Sorted_StronglySorted; [|exact H].
  intros x y z Hxy Hyz. lia.
Qed.

Lemma last_filter_greatest (l : list TidalEvent) t x :
  StronglySorted (fun a b => epochTime a <= epochTime b) l ->
  last (filter (fun e => epochTime e <= t) l) = Some x ->
  forall e, In e l -> epochTime e <= t -> epochTime e <= epochTime x.
Proof.
  induction 1 as [|a l Hl IH Ha]; intros Hlast e He Het.
  - destruct He.
  - rewrite List.Forall_forall in Ha.
    destruct (decide (epochTime a <= t)) as [Hle|Hgt].
    + rewrite filter_cons_True in Hlast by exact Hle.
      rewrite last_cons in Hlast.
      destruct (last (filter (fun e => epochTime e <= t) l)) as [y|] eqn:Ey.
      * injection Hlast as <-. destruct He as [<-|He]; [|eauto].
        apply Ha. apply last_Some_elem_of in Ey.
        apply list_elem_of_filter in Ey as [_ Ey].
        apply list_elem_of_In. exact Ey.
      * injection Hlast as <-. destruct He as [<-|He]; [lia|].
        apply last_None in Ey. exfalso.
        apply (filter_nil_not_elem_of (fun e => epochTime e <= t) l e Ey Het).
        apply list_elem_of_In. exact He.
    + rewrite filter_cons_False in Hlast by exact Hgt.
      destruct He as [<-|He]; [contradiction|eauto].
Qed.

Lemma last_filter_stored (l : list TidalEvent) t x :
  last (filter (fun e => epochTime e <= t) l) = Some x ->
  In x l /\ epochTime x <= t.
Proof.
  intros H. apply last_Some_elem_of in H.
  apply list_elem_of_filter in H as [H1 H2].
  split; [apply list_elem_of_In; exact H2 | exact H1].
Qed.

Lemma PreviousTidalEvent_last_not_after_aux c t :
  chronological c ->
  forall x, In x (entries c) -> epochTime x <= t ->
    In (PreviousTidalEvent c t) (entries c)
    /\ epochTime (PreviousTidalEvent c t) <= t
    /\ forall e, In e (entries c) -> epochTime e <= t ->
         epochTime e <= epochTime (PreviousTidalEvent c t).
Proof.
  intros Hc x Hx Hxt. apply chronological_strongly in Hc.
  unfold PreviousTidalEvent. fold (entries c).
  assert (E : PreviousTidalEvent c t
    = default TidalEvent_default (last (filter (fun e => epochTime e <= t) (entries c)))).
  { apply previous_loop_scan. exact Hc. }
  fold (PreviousTidalEvent c t). rewrite E.
  destruct (last (filter (fun e => epochTime e <= t) (entries c))) as [y|] eqn:Ey.
  - cbn [default]. destruct (last_filter_stored _ _ _ Ey) as [Hy1 Hy2].
    repeat split; try assumption.
    apply (last_filter_greatest _ _ _ Hc Ey).
  - apply last_None in Ey. exfalso.
    apply (filter_nil_not_elem_of (fun e => epochTime e <= t) _ x Ey Hxt).
    apply list_elem_of_In. exact Hx.
Qed.

(** C1. On a store whose entries are in time order, [PreviousTidalEvent]
    returns the last entry that is not after the query time: it is a stored
    entry, not after [t], and no stored entry that is not after [t] is later.
    When the store is empty or every entry is after [t], the result is the
    default record, which is not valid and has zero numeric fields. *)
Theorem PreviousTidalEvent_last_not_after c t :
  chronological c ->
  PreviousTidalEvent c t
  = default TidalEvent_default (last (filter (fun e => epochTime e <= t) (entries c)))
  /\ (forall x, In x (entries c) -> epochTime x <= t ->
        In (PreviousTidalEvent c t) (entries c)
        /\ epochTime (PreviousTidalEvent c t) <= t
        /\ forall e, In e (entries c) -> epochTime e <= t ->
             epochTime e <= epochTime (PreviousTidalEvent c t))
  /\ ((forall e, In e (entries c) -> t < epochTime e) ->
        PreviousTidalEvent c t = TidalEvent_default
        /\ isValid (PreviousTidalEvent c t) = false
        /\ epochTime (PreviousTidalEvent c t) = 0
        /\ tm (PreviousTidalEvent c t) = TimeLib.tm_zero
        /\ heightM (PreviousTidalEvent c t) = float_zero).
Proof.
  intros Hc0. pose proof (chronological_strongly c Hc0) as Hc.
  assert (E : PreviousTidalEvent c t
    = default TidalEvent_default (last (filter (fun e => epochTime e <= t) (entries c)))).
  { apply previous_loop_scan. exact Hc. }
  split; [exact E|]. split.
  - apply PreviousTidalEvent_last_not_after_aux. exact Hc0.
  - rewrite E. intros Hall. rewrite filter_none.
    + cbn. repeat split.
    + intros e He. specialize (Hall e He). lia.
Qed.

Lemma next_loop_scan events t i n best :
  next_loop events t i n best
  = default best (head (filter (fun e => t < epochTime e) (map (event_at events) (seq i n)))).
Proof.
  revert i. induction n as [|n IH]; intros i; [reflexivity|].
  cbn [next_loop seq map].
  destruct (Z.ltb_spec t (epochTime (event_at events i))) as [Hlt|Hge].
  - rewrite filter_cons_True by exact Hlt. reflexivity.
  - rewrite filter_cons_False by lia. apply IH.
Qed.

(** C2. [NextTidalEvent] returns the first stored entry that is after the
    query time and the default (invalid) record when there is none.  An entry
    at exactly [t] is what [PreviousTidalEvent] returns, and is never what
    [NextTidalEvent] returns.  For tides at 100, 200 and 300 the two queries
    at 200 give the tides at 200 and at 300, and the queries before the first
    and after the last tide give the default record. *)
Theorem NextTidalEvent_first_after c t :
  chronological c ->
  NextTidalEvent c t
  = default TidalEvent_default (head (filter (fun e => t < epochTime e) (entries c)))
  /\ ((forall e, In e (entries c) -> epochTime e <= t) ->
        NextTidalEvent c t = TidalEvent_default
        /\ isValid (NextTidalEvent c t) = false)
  /\ (NextTidalEvent c t = TidalEvent_default \/ t < epochTime (NextTidalEvent c t))
  /\ (forall e, In e (entries c) -> epochTime e = t ->
        In (PreviousTidalEvent c t) (entries c)
        /\ epochTime (PreviousTidalEvent c t) = t
        /\ (isValid e = true -> NextTidalEvent c t <> e))
  /\ (forall e1 e2 e3,
        entries c = [e1; e2; e3] ->
        epochTime e1 = 100 -> epochTime e2 = 200 -> epochTime e3 = 300 ->
        PreviousTidalEvent c 200 = e2
        /\ NextTidalEvent c 200 = e3
        /\ PreviousTidalEvent c 50 = TidalEvent_default
        /\ NextTidalEvent c 350 = TidalEvent_default
        /\ isValid (PreviousTidalEvent c 50) = false
        /\ isValid (NextTidalEvent c 350) = false).
Proof.
  intros Hc.
  assert (EN : forall u, NextTidalEvent c u
    = default TidalEvent_default (head (filter (fun e => u < epochTime e) (entries c)))).
  { intros u. apply next_loop_scan. }
  assert (Hsentinel : NextTidalEvent c t = TidalEvent_default
                      \/ t < epochTime (NextTidalEvent c t)).
  { rewrite EN.
    destruct (head (filter (fun e => t < epochTime e) (entries c))) as [y|] eqn:Ey.
    - right. cbn [default]. apply head_Some_elem_of in Ey.
      apply list_elem_of_filter in Ey as [Ey _]. exact Ey.
    - left. reflexivity. }
  split; [apply EN|]. split; [|split; [exact Hsentinel|split]].
  - intros Hall. rewrite EN, filter_none.
    + split; reflexivity.
    + intros e He. specialize (Hall e He). lia.
  - intros e He Het.
    destruct (PreviousTidalEvent_last_not_after_aux c t Hc e He ltac:(lia))
      as (Hin & Hle & Hmax).
    split; [exact Hin|]. split.
    + specialize (Hmax e He ltac:(lia)). lia.
    + intros Hv Heq. destruct Hsentinel as [Hd|Hlt].
      * rewrite Heq in Hd. rewrite Hd in Hv. discriminate Hv.
      * rewrite Heq in Hlt. lia.
  - intros e1 e2 e3 He H1 H2 H3.
    assert (EP : forall u, PreviousTidalEvent c u
      = default TidalEvent_default (last (filter (fun e => epochTime e <= u) (entries c)))).
    { intros u. apply previous_loop_scan. apply chronological_strongly. exact Hc. }
    rewrite !EP, !EN, He.
    rewrite !filter_cons, !filter_nil.
    repeat case_decide; try lia. repeat split.
Qed.

End Queries.

(** The sample store is in time order, so both query theorems apply to it. *)
Lemma PreviousTidalEvent_last_not_after_witness :
  chronological Samples.three_tides
  /\ PreviousTidalEvent Samples.three_tides 250 = Samples.tide_at 200.
Proof.
  assert (H : chronological Samples.three_tides).
  { unfold chronological. cbn. repeat constructor; cbn; lia. }
  split; [exact H|].
  exact (eq_trans (proj1 (PreviousTidalEvent_last_not_after Samples.three_tides 250 H))
                  eq_refl).
Defined.

Lemma NextTidalEvent_first_after_witness :
  chronological Samples.three_tides
  /\ NextTidalEvent Samples.three_tides 200 = Samples.tide_at 300.
Proof.
  assert (H : chronological Samples.three_tides).
  { unfold chronological. cbn. repeat constructor; cbn; lia. }
  split; [exact H|].
  exact (eq_trans (proj1 (NextTidalEvent_first_after Samples.three_tides 200 H))
                  eq_refl).
Defined.

(** ** [TimeFrom] *)

Section TimeFromFacts.
Context `{P : Platform}.
Import Ints TimeLib.
Implicit Types (e : TidalEvent) (t d : Z).

Lemma max_minus_min a b : Z.max a b - Z.min a b = Z.abs (a - b).
Proof. lia. Qed.

Lemma numberOfHours_nonneg x :
  0 <= x -> numberOfHours x = (x mod 86400) / 3600.
Proof.
  intros Hx. unfold numberOfHours, SECS_PER_DAY, SECS_PER_HOUR.
  change (3600 * 24) with 86400.
  rewrite Z.rem_mod_nonneg by lia.
  apply Z.quot_div_nonneg; [apply Z.mod_pos_bound|]; lia.
Qed.

Lemma numberOfMinutes_nonneg x :
  0 <= x -> numberOfMinutes x = (x / 60) mod 60.
Proof.
  intros Hx. unfold numberOfMinutes, SECS_PER_MIN.
  rewrite Z.quot_div_nonneg by lia.
  apply Z.rem_mod_nonneg; [apply Z.div_pos|]; lia.
Qed.

Lemma hour_of_day_range x : 0 <= (x mod 86400) / 3600 < 24.
Proof.
  pose proof (Z.mod_pos_bound x 86400 ltac:(lia)) as Hm.
  split; [apply Z.div_pos; lia|].
  apply Z.div_lt_upper_bound; lia.
Qed.

(** The record [TimeFrom] builds, in closed form: only [Hour] and [Minute]
    are written, [Hour] is the hour of the day of the absolute difference
    and [Minute] its minute of the hour. *)
Lemma TimeFrom_closed_form e t :
  TimeFrom e t
  = mk_tm 0 ((Z.abs (epochTime e - t) / 60) mod 60)
          ((Z.abs (epochTime e - t) mod 86400) / 3600) 0 0 0 0.
Proof.
  unfold TimeFrom. rewrite max_minus_min.
  set (diff := Z.abs (epochTime e - t)).
  assert (Hd : 0 <= diff) by (subst diff; lia).
  cbn [set_Hour set_Minute tm_zero Hour Minute Second Wday Day Month Year].
  rewrite numberOfHours_nonneg by exact Hd.
  pose proof (hour_of_day_range diff) as Hh.
  rewrite (uint8_t_small ((diff mod 86400) / 3600)) by lia.
  set (h := (diff mod 86400) / 3600) in *.
  assert (Hle : h * 3600 <= diff).
  { subst h. pose proof (Z.mod_le diff 86400 Hd ltac:(lia)).
    pose proof (Z.mul_div_le (diff mod 86400) 3600 ltac:(lia)). lia. }
  unfold SECS_PER_HOUR.
  rewrite numberOfMinutes_nonneg by lia.
  replace (diff - h * 3600) with (diff + (- h * 60) * 60) by lia.
  rewrite Z.div_add by lia.
  replace (diff / 60 + - h * 60) with (diff / 60 + (- h) * 60) by lia.
  rewrite Z.mod_add by lia.
  rewrite uint8_t_small; [reflexivity|].
  pose proof (Z.mod_pos_bound (diff / 60) 60 ltac:(lia)). lia.
Qed.

(** Two times at the same distance on either side of the event give the
    same record. *)
Lemma TimeFrom_equidistant e d :
  TimeFrom e (epochTime e + d) = TimeFrom e (epochTime e - d).
Proof.
  rewrite !TimeFrom_closed_form.
  replace (Z.abs (epochTime e - (epochTime e + d))) with (Z.abs d) by lia.
  replace (Z.abs (epochTime e - (epochTime e - d))) with (Z.abs d) by lia.
  reflexivity.
Qed.

(** Exchanging the time of the event and the time asked about changes
    nothing. *)
Lemma TimeFrom_swap e t :
  TimeFrom (set_epochTime t e) (epochTime e) = TimeFrom e t.
Proof.
  rewrite !TimeFrom_closed_form. cbn [set_epochTime epochTime].
  replace (Z.abs (t - epochTime e)) with (Z.abs (epochTime e - t)) by lia.
  reflexivity.
Qed.

(** Below one day the hours are the whole hours of the difference and the
    minutes the whole minutes of what is left. *)
Lemma TimeFrom_within_a_day e d :
  Z.abs d < 86400 ->
  Hour (TimeFrom e (epochTime e + d)) = Z.abs d / 3600
  /\ Minute (TimeFrom e (epochTime e + d)) = (Z.abs d mod 3600) / 60.
Proof.
  intros Hd. rewrite TimeFrom_closed_form. cbn [Hour Minute].
  replace (Z.abs (epochTime e - (epochTime e + d))) with (Z.abs d) by lia.
  rewrite (Z.mod_small (Z.abs d) 86400) by lia. split; [reflexivity|].
  rewrite (Z.mod_eq (Z.abs d) 3600) by lia.
  replace (Z.abs d - 3600 * (Z.abs d / 3600))
    with (Z.abs d + (- (Z.abs d / 3600) * 60) * 60) by lia.
  rewrite Z.div_add by lia.
  replace (Z.abs d / 60 + - (Z.abs d / 3600) * 60)
    with (Z.abs d / 60 - 60 * (Z.abs d / 3600)) by lia.
  replace (Z.abs d / 3600) with (Z.abs d / 60 / 60)
    by (rewrite Z.div_div by lia; reflexivity).
  rewrite <- Z.mod_eq by lia. reflexivity.
Qed.

(** Half an hour on either side reads 0 hours and 30 minutes. *)
Lemma TimeFrom_half_hour e :
  TimeFrom e (epochTime e + 1800) = mk_tm 0 30 0 0 0 0 0
  /\ TimeFrom e (epochTime e - 1800) = mk_tm 0 30 0 0 0 0 0.
Proof.
  rewrite <- TimeFrom_equidistant. split; rewrite TimeFrom_closed_form;
    replace (Z.abs (epochTime e - (epochTime e + 1800))) with 1800 by lia;
    reflexivity.
Qed.

(** C6. At a distance of exactly one day [TimeFrom] returns 0 hours and 0
    minutes on either side of the event, where the whole hours of the
    difference are 24: the hours are taken after the difference is reduced
    to the time of day. *)
Theorem TimeFrom_one_day_apart e :
  TimeFrom e (epochTime e + 86400) = mk_tm 0 0 0 0 0 0 0
  /\ TimeFrom e (epochTime e - 86400) = mk_tm 0 0 0 0 0 0 0
  /\ Hour (TimeFrom e (epochTime e + 86400)) <> Z.abs 86400 / 3600.
Proof.
  rewrite <- TimeFrom_equidistant. rewrite TimeFrom_closed_form.
  replace (Z.abs (epochTime e - (epochTime e + 86400))) with 86400 by lia.
  repeat split. cbn. discriminate.
Qed.

(** With a [time_t] of at least 32 bits, nothing wraps in [TimeFrom_time_t]
    when the distance fits [time_t]: it then is [TimeFrom]. *)
Lemma TimeFrom_time_t_agrees e t :
  32 <= time_t_bits ->
  Z.abs (epochTime e - t) < 2 ^ (time_t_bits - 1) ->
  TimeFrom_time_t e t = TimeFrom e t.
Proof.
  intros Hb Hd. unfold TimeFrom_time_t, TimeFrom. rewrite max_minus_min.
  set (diff := Z.abs (epochTime e - t)) in *.
  assert (H0 : 0 <= diff) by (subst diff; lia).
  assert (Hp : 2147483648 <= 2 ^ (time_t_bits - 1)).
  { change 2147483648 with (2 ^ 31). apply Z.pow_le_mono_r; lia. }
  rewrite (wrap_signed_small time_t_bits diff) by lia.
  cbn [set_Hour set_Minute tm_zero Hour Minute Second Wday Day Month Year].
  rewrite numberOfHours_nonneg by exact H0.
  pose proof (hour_of_day_range diff) as Hh.
  rewrite (uint8_t_small ((diff mod 86400) / 3600)) by lia.
  set (h := (diff mod 86400) / 3600) in *.
  assert (Hle : h * 3600 <= diff).
  { subst h. pose proof (Z.mod_le diff 86400 H0 ltac:(lia)).
    pose proof (Z.mul_div_le (diff mod 86400) 3600 ltac:(lia)). lia. }
  unfold SECS_PER_HOUR.
  rewrite (wrap_signed_small time_t_bits (h * 3600)) by lia.
  rewrite (wrap_signed_small time_t_bits (diff - h * 3600)) by lia.
  reflexivity.
Qed.

(** C9. Every field of the result but [Hour] and [Minute] is zero.  With a
    [time_t] of at least 32 bits, [Hour] stays below 24 for every distance
    that fits [time_t]: at a distance of 25 hours the result reads 1 hour,
    with the [Day] field zero, where the whole hours of the difference are
    25. *)
Theorem TimeFrom_more_than_a_day e t :
  32 <= time_t_bits ->
  Second (TimeFrom_time_t e t) = 0 /\ Wday (TimeFrom_time_t e t) = 0
  /\ Day (TimeFrom_time_t e t) = 0 /\ Month (TimeFrom_time_t e t) = 0
  /\ Year (TimeFrom_time_t e t) = 0
  /\ (Z.abs (epochTime e - t) < 2 ^ (time_t_bits - 1) ->
        0 <= Hour (TimeFrom_time_t e t) < 24)
  /\ Hour (TimeFrom_time_t e (epochTime e + 90000)) = 1
  /\ Day (TimeFrom_time_t e (epochTime e + 90000)) = 0
  /\ 90000 / 3600 = 25.
Proof.
  intros Hb.
  assert (Hp : 2147483648 <= 2 ^ (time_t_bits - 1)).
  { change 2147483648 with (2 ^ 31). apply Z.pow_le_mono_r; lia. }
  repeat split; try reflexivity.
  - rewrite TimeFrom_time_t_agrees, TimeFrom_closed_form by assumption.
    apply hour_of_day_range.
  - rewrite TimeFrom_time_t_agrees, TimeFrom_closed_form by assumption.
    apply hour_of_day_range.
  - rewrite TimeFrom_time_t_agrees by (exact Hb || lia).
    rewrite TimeFrom_closed_form. cbn [Hour].
    replace (Z.abs (epochTime e - (epochTime e + 90000))) with 90000 by lia.
    reflexivity.
Qed.

End TimeFromFacts.

(** ** The listener *)

Section Listener.
Context `{P : Platform}.
Import Ints TimeLib.
Implicit Types (c : AdmiraltyApiClient) (cb : callback) (calls : list callback).

Lemma parse_app calls1 calls2 c :
  parse (calls1 ++ calls2) c = parse calls2 (parse calls1 c).
Proof. unfold parse. apply fold_left_app. Qed.

Lemma parse_cons cb calls c : parse (cb :: calls) c = parse calls (listen c cb).
Proof. reflexivity. Qed.

Lemma parse_nil c : parse [] c = c.
Proof. reflexivity. Qed.

(** What [value] does, case by case on the current key. *)
Lemma value_cases v c :
  value v c = update_current (set_isHighTide (String.eqb v "HighWater")) c
  \/ value v c = update_current
       (fun e => set_tm (convertFromIso8601 v tm_zero) (set_dateTime v e)) c
  \/ value v c = update_current (set_heightM (toFloat v)) c
  \/ value v c = c.
Proof.
  unfold value.
  destruct (String.eqb (currentKey c) "EventType"); [left; reflexivity|].
  destruct (String.eqb (currentKey c) "DateTime"); [right; left; reflexivity|].
  destruct (String.eqb (currentKey c) "Height"); [right; right; left; reflexivity|].
  right; right; right; reflexivity.
Qed.

Lemma update_current_index f c : eventIndex (update_current f c) = eventIndex c.
Proof. reflexivity. Qed.

Lemma update_current_count f c : numberEvents (update_current f c) = numberEvents c.
Proof. reflexivity. Qed.

Lemma update_current_length f c :
  length (tidalEvents (update_current f c)) = length (tidalEvents c).
Proof. apply length_alter. Qed.

Lemma update_current_other f c i :
  i <> eventIndex c -> tidalEvents (update_current f c) !! i = tidalEvents c !! i.
Proof. intros H. apply list_lookup_alter_ne. congruence. Qed.

Lemma update_current_slot f c :
  tidalEvents (update_current f c) !! eventIndex c = f <$> tidalEvents c !! eventIndex c.
Proof. apply list_lookup_alter_eq. Qed.

Lemma value_index v c : eventIndex (value v c) = eventIndex c.
Proof. destruct (value_cases v c) as [E|[E|[E|E]]]; rewrite E; reflexivity. Qed.

Lemma value_count v c : numberEvents (value v c) = numberEvents c.
Proof. destruct (value_cases v c) as [E|[E|[E|E]]]; rewrite E; reflexivity. Qed.

Lemma value_length v c : length (tidalEvents (value v c)) = length (tidalEvents c).
Proof.
  destruct (value_cases v c) as [E|[E|[E|E]]]; rewrite E;
    try apply update_current_length; reflexivity.
Qed.

Lemma value_other v c i :
  i <> eventIndex c -> tidalEvents (value v c) !! i = tidalEvents c !! i.
Proof.
  intros H. destruct (value_cases v c) as [E|[E|[E|E]]]; rewrite E;
    try (apply update_current_other; exact H); reflexivity.
Qed.

Lemma endObject_index c :
  (eventIndex c <= MAX_COUNT_TIDAL_EVENTS - 1)%nat ->
  eventIndex (endObject c) = Nat.min (S (eventIndex c)) (MAX_COUNT_TIDAL_EVENTS - 1).
Proof.
  intros H. unfold endObject. cbn [update_current eventIndex].
  destruct (Nat.ltb_spec (eventIndex c) (MAX_COUNT_TIDAL_EVENTS - 1));
    cbn [eventIndex update_current]; lia.
Qed.

Lemma endObject_index_le c : (eventIndex c <= eventIndex (endObject c))%nat.
Proof.
  unfold endObject. cbn [update_current eventIndex].
  destruct (eventIndex c <? MAX_COUNT_TIDAL_EVENTS - 1)%nat;
    cbn [eventIndex update_current]; lia.
Qed.

Lemma endObject_count c : numberEvents (endObject c) = numberEvents c.
Proof.
  unfold endObject. cbn [update_current eventIndex].
  destruct (eventIndex c <? MAX_COUNT_TIDAL_EVENTS - 1)%nat; reflexivity.
Qed.

Lemma endObject_events c :
  tidalEvents (endObject c)
  = alter (fun e => set_isValid true (set_epochTime (makeTime time_t_bits (tm e)) e))
          (eventIndex c) (tidalEvents c).
Proof.
  unfold endObject. cbn [update_current eventIndex tidalEvents].
  destruct (eventIndex c <? MAX_COUNT_TIDAL_EVENTS - 1)%nat;
    cbn [tidalEvents update_current]; rewrite list_alter_alter_eq; reflexivity.
Qed.

Lemma endObject_length c : length (tidalEvents (endObject c)) = length (tidalEvents c).
Proof. rewrite endObject_events. apply length_alter. Qed.

Lemma endObject_other c i :
  i <> eventIndex c -> tidalEvents (endObject c) !! i = tidalEvents c !! i.
Proof. intros H. rewrite endObject_events. apply list_lookup_alter_ne. congruence. Qed.

(** One call inside a document: the published count is untouched, the index
    does not go back, the array keeps its length, and only the slot at the
    index can change. *)
Lemma listen_within_document cb c :
  is_document_boundary cb = false ->
  numberEvents (listen c cb) = numberEvents c
  /\ (eventIndex c <= eventIndex (listen c cb))%nat
  /\ length (tidalEvents (listen c cb)) = length (tidalEvents c)
  /\ forall i, i <> eventIndex c -> tidalEvents (listen c cb) !! i = tidalEvents c !! i.
Proof.
  destruct cb; cbn [is_document_boundary listen]; intros Hb; try discriminate Hb;
    try (repeat split; reflexivity || lia).
  - rewrite value_count, value_index, value_length.
    repeat split; try lia. intros i Hi. apply value_other. exact Hi.
  - rewrite endObject_count, endObject_length.
    repeat split. + apply endObject_index_le. + intros i Hi. apply endObject_other. exact Hi.
Qed.

Lemma parse_within_document calls c :
  within_document calls ->
  numberEvents (parse calls c) = numberEvents c
  /\ (eventIndex c <= eventIndex (parse calls c))%nat
  /\ length (tidalEvents (parse calls c)) = length (tidalEvents c)
  /\ forall i, (i < eventIndex c)%nat -> tidalEvents (parse calls c) !! i = tidalEvents c !! i.
Proof.
  intros H. revert c. induction H as [|cb calls Hcb _ IH]; intros c.
  - rewrite parse_nil. repeat split; lia.
  - rewrite parse_cons.
    destruct (listen_within_document cb c Hcb) as (N1 & I1 & L1 & O1).
    destruct (IH (listen c cb)) as (N2 & I2 & L2 & O2).
    repeat split; try lia. intros i Hi.
    rewrite O2 by lia. apply O1. lia.
Qed.

(** The invariant of the store holds before any parse and after every call:
    in particular the count never reaches [MAX_COUNT_TIDAL_EVENTS]. *)
Lemma fresh_client_invariant : store_invariant fresh_client.
Proof.
  unfold store_invariant, fresh_client. cbn [tidalEvents eventIndex numberEvents].
  rewrite length_replicate. lia.
Qed.

Lemma listen_invariant cb c : store_invariant c -> store_invariant (listen c cb).
Proof.
  intros (L & I & N). unfold store_invariant.
  destruct cb; cbn [listen whitespace startDocument key endArray endDocument
                    startArray startObject tidalEvents eventIndex numberEvents];
    try (repeat split; assumption || lia).
  - rewrite value_length, value_index, value_count. repeat split; assumption.
  - rewrite endObject_length, endObject_count, endObject_index by exact I.
    repeat split; assumption || lia.
Qed.

Lemma parse_invariant calls c : store_invariant c -> store_invariant (parse calls c).
Proof.
  revert c. induction calls as [|cb calls IH]; intros c H; [exact H|].
  rewrite parse_cons. apply IH, listen_invariant, H.
Qed.

Lemma listen_index_other cb c :
  is_document_boundary cb = false -> is_endObject cb = false ->
  eventIndex (listen c cb) = eventIndex c.
Proof.
  destruct cb; cbn [is_document_boundary is_endObject listen]; intros H1 H2;
    try discriminate; try reflexivity.
  apply value_index.
Qed.

(** Inside a document the index counts the ends of object and stops at the
    last slot. *)
Lemma parse_index_within_document calls c :
  within_document calls ->
  (eventIndex c <= MAX_COUNT_TIDAL_EVENTS - 1)%nat ->
  eventIndex (parse calls c)
  = Nat.min (eventIndex c + count_finalized calls) (MAX_COUNT_TIDAL_EVENTS - 1).
Proof.
  intros H. revert c. induction H as [|cb calls Hcb _ IH]; intros c Hc.
  - rewrite parse_nil. cbn. lia.
  - rewrite parse_cons. unfold count_finalized. cbn [List.filter].
    destruct (is_endObject cb) eqn:Ecb.
    + destruct cb; try discriminate Ecb. cbn [listen length].
      pose proof (endObject_index c Hc) as Hi.
      rewrite IH by lia. unfold count_finalized. lia.
    + pose proof (listen_index_other cb c Hcb Ecb) as Hi.
      rewrite IH by lia. unfold count_finalized. lia.
Qed.

Lemma count_finalized_app calls1 calls2 :
  count_finalized (calls1 ++ calls2) = (count_finalized calls1 + count_finalized calls2)%nat.
Proof. unfold count_finalized. rewrite List.filter_app, length_app. reflexivity. Qed.

Lemma count_finalized_fields fields : count_finalized (fields_calls fields) = 0%nat.
Proof. induction fields as [|kv fields IH]; [reflexivity|exact IH]. Qed.

Lemma count_finalized_objects objects :
  count_finalized (objects_calls objects) = length objects.
Proof.
  induction objects as [|o objects IH]; [reflexivity|].
  unfold objects_calls in *. cbn [flat_map length].
  rewrite count_finalized_app, IH. unfold object_calls.
  change (on_startObject :: fields_calls o ++ [on_endObject])
    with ([on_startObject] ++ fields_calls o ++ [on_endObject]).
  rewrite !count_finalized_app, count_finalized_fields. reflexivity.
Qed.

Lemma within_document_fields fields : within_document (fields_calls fields).
Proof.
  induction fields as [|kv fields IH]; [constructor|].
  repeat (constructor; [reflexivity|]). exact IH.
Qed.

Lemma within_document_object fields : within_document (object_calls fields).
Proof.
  unfold object_calls. constructor; [reflexivity|].
  apply Forall_app. split; [apply within_document_fields|].
  constructor; [reflexivity|constructor].
Qed.

Lemma within_document_objects objects : within_document (objects_calls objects).
Proof.
  induction objects as [|o objects IH]; [constructor|].
  unfold objects_calls in *. cbn [flat_map]. apply Forall_app.
  split; [apply within_document_object|exact IH].
Qed.

Lemma session_count c body :
  within_document body ->
  numberEvents (parse (on_startDocument :: body ++ [on_endDocument]) c)
  = Nat.min (count_finalized body) (MAX_COUNT_TIDAL_EVENTS - 1).
Proof.
  intros Hb. rewrite parse_cons, parse_app. cbn [parse fold_left listen endDocument numberEvents].
  fold (parse body (startDocument c)).
  rewrite parse_index_within_document by (exact Hb || (cbn; lia)).
  reflexivity.
Qed.

(** C3. A session from the document start to the document end that
    finalizes N objects ends with a count of N, at most
    [MAX_COUNT_TIDAL_EVENTS - 1]: the index stops at the last slot and the
    count is the index.  With [MAX_COUNT_TIDAL_EVENTS + 5] objects the count
    is [MAX_COUNT_TIDAL_EVENTS - 1]. *)
Theorem session_count_capped c :
  (forall body, within_document body ->
     numberEvents (parse (on_startDocument :: body ++ [on_endDocument]) c)
     = Nat.min (count_finalized body) (MAX_COUNT_TIDAL_EVENTS - 1))
  /\ (forall objects,
        numberEvents (parse (document_calls objects) c)
        = Nat.min (length objects) (MAX_COUNT_TIDAL_EVENTS - 1))
  /\ (forall objects,
        length objects = (MAX_COUNT_TIDAL_EVENTS + 5)%nat ->
        numberEvents (parse (document_calls objects) c)
        = (MAX_COUNT_TIDAL_EVENTS - 1)%nat).
Proof.
  assert (H : forall objects,
    numberEvents (parse (document_calls objects) c)
    = Nat.min (length objects) (MAX_COUNT_TIDAL_EVENTS - 1)).
  { intros objects. unfold document_calls.
    replace (objects_calls objects ++ [on_endArray; on_endDocument])
      with ((objects_calls objects ++ [on_endArray]) ++ [on_endDocument])
      by (rewrite <- app_assoc; reflexivity).
    change (on_startDocument :: on_startArray
              :: (objects_calls objects ++ [on_endArray]) ++ [on_endDocument])
      with (on_startDocument
              :: ([on_startArray] ++ objects_calls objects ++ [on_endArray])
              ++ [on_endDocument]).
    rewrite session_count.
    - rewrite !count_finalized_app, count_finalized_objects. cbn. f_equal. lia.
    - apply Forall_app. split; [repeat constructor|].
      apply Forall_app. split; [apply within_document_objects|repeat constructor]. }
  split; [intros body; apply session_count|]. split; [exact H|].
  intros objects Hlen. rewrite H, Hlen. lia.
Qed.

(** C4. A session that stops before the document end leaves the count at 0,
    where the document start put it, whatever was finalized: the store has
    no entry, and both queries return the default record, which is not
    valid. *)
Theorem truncated_session_publishes_nothing c body :
  within_document body ->
  numberEvents (parse (on_startDocument :: body) c) = 0%nat
  /\ entries (parse (on_startDocument :: body) c) = []
  /\ forall t,
       PreviousTidalEvent (parse (on_startDocument :: body) c) t = TidalEvent_default
       /\ NextTidalEvent (parse (on_startDocument :: body) c) t = TidalEvent_default
       /\ isValid (PreviousTidalEvent (parse (on_startDocument :: body) c) t) = false
       /\ isValid (NextTidalEvent (parse (on_startDocument :: body) c) t) = false.
Proof.
  intros Hb. rewrite parse_cons. cbn [listen].
  destruct (parse_within_document body (startDocument c) Hb) as (Hn & _).
  cbn [startDocument numberEvents] in Hn.
  unfold entries, PreviousTidalEvent, NextTidalEvent. rewrite Hn.
  repeat split.
Qed.

Lemma key_value_EventType v c :
  value v (key "EventType" c)
  = update_current (set_isHighTide (String.eqb v "HighWater")) (key "EventType" c).
Proof. reflexivity. Qed.

Lemma key_value_DateTime v c :
  value v (key "DateTime" c)
  = update_current
      (fun e => set_tm (convertFromIso8601 v tm_zero) (set_dateTime v e))
      (key "DateTime" c).
Proof. reflexivity. Qed.

Lemma key_value_Height v c :
  value v (key "Height" c)
  = update_current (set_heightM (toFloat v)) (key "Height" c).
Proof. reflexivity. Qed.

(** A whole tidal object assembled at the index: every field of the slot is
    written, so the record does not depend on what the slot held. *)
Lemma tidal_object_assembled c eventType stamp height :
  (eventIndex c < length (tidalEvents c))%nat ->
  tidalEvents (parse (object_calls (tidal_object eventType stamp height)) c) !! eventIndex c
  = Some (mk_event (String.eqb eventType "HighWater") stamp
            (convertFromIso8601 stamp tm_zero) (toFloat height)
            (makeTime time_t_bits (convertFromIso8601 stamp tm_zero)) true).
Proof.
  intros Hi. apply lookup_lt_is_Some in Hi. destruct Hi as [e0 He0].
  unfold object_calls, tidal_object, fields_calls, parse.
  cbn [flat_map fst snd app fold_left listen startObject].
  rewrite key_value_EventType, key_value_DateTime, key_value_Height.
  rewrite endObject_events.
  cbn [update_current key eventIndex tidalEvents]. unfold startObject.
  rewrite !list_lookup_alter_eq, He0. reflexivity.
Qed.

(** C8. Once the index is at the last slot, the calls of any further
    records leave the entries [[0, MAX_COUNT_TIDAL_EVENTS - 1)] as they are
    and the index where it is; the last slot is not protected: a further
    record is assembled in it and replaces what it held. *)
Theorem pinned_index_keeps_earlier_entries c calls :
  eventIndex c = (MAX_COUNT_TIDAL_EVENTS - 1)%nat ->
  within_document calls ->
  (forall i, (i < MAX_COUNT_TIDAL_EVENTS - 1)%nat ->
     tidalEvents (parse calls c) !! i = tidalEvents c !! i)
  /\ eventIndex (parse calls c) = (MAX_COUNT_TIDAL_EVENTS - 1)%nat
  /\ length (tidalEvents (parse calls c)) = length (tidalEvents c)
  /\ (forall eventType stamp height,
        (MAX_COUNT_TIDAL_EVENTS - 1 < length (tidalEvents c))%nat ->
        tidalEvents (parse (calls ++ object_calls (tidal_object eventType stamp height)) c)
          !! (MAX_COUNT_TIDAL_EVENTS - 1)%nat
        = Some (mk_event (String.eqb eventType "HighWater") stamp
                  (convertFromIso8601 stamp tm_zero) (toFloat height)
                  (makeTime time_t_bits (convertFromIso8601 stamp tm_zero)) true)).
Proof.
  intros Hi Hc.
  destruct (parse_within_document calls c Hc) as (_ & _ & Hl & Ho).
  assert (Hp : eventIndex (parse calls c) = (MAX_COUNT_TIDAL_EVENTS - 1)%nat).
  { rewrite parse_index_within_document by (exact Hc || lia). lia. }
  split; [intros i Hlt; apply Ho; lia|]. split; [exact Hp|]. split; [exact Hl|].
  intros eventType stamp height Hlen. rewrite parse_app, <- Hp.
  apply tidal_object_assembled. rewrite Hl, Hp. exact Hlen.
Qed.

(** Fields other than the timestamp leave the index, the array length and
    the calendar fields of the slot at the index as they are. *)
Lemma other_fields_keep_tm fields c :
  Forall (fun kv => fst kv <> "DateTime"%string) fields ->
  eventIndex (parse (fields_calls fields) c) = eventIndex c
  /\ length (tidalEvents (parse (fields_calls fields) c)) = length (tidalEvents c)
  /\ tm <$> tidalEvents (parse (fields_calls fields) c) !! eventIndex c
     = tm <$> tidalEvents c !! eventIndex c.
Proof.
  intros H. revert c. induction H as [|[k v] fields Hk _ IH]; intros c.
  - repeat split.
  - cbn [fields_calls flat_map fst snd app] in *. rewrite !parse_cons.
    fold (fields_calls fields). cbn [listen].
    destruct (IH (value v (key k c))) as (I & L & T).
    rewrite value_index in I, T. cbn [key eventIndex] in I, T.
    rewrite I, L, T, value_length. repeat split.
    unfold value. cbn [key currentKey].
    apply String.eqb_neq in Hk. rewrite Hk.
    destruct (String.eqb k "EventType"); [|destruct (String.eqb k "Height")];
      try reflexivity;
      cbn [update_current key tidalEvents eventIndex];
      rewrite list_lookup_alter_eq;
      destruct (tidalEvents c !! eventIndex c); reflexivity.
Qed.

Lemma any_fields_keep_index fields c :
  eventIndex (parse (fields_calls fields) c) = eventIndex c
  /\ length (tidalEvents (parse (fields_calls fields) c)) = length (tidalEvents c).
Proof.
  split; [|apply parse_within_document, within_document_fields].
  revert c. induction fields as [|[k v] fields IH]; intros c; [reflexivity|].
  cbn [fields_calls flat_map fst snd app]. rewrite !parse_cons.
  fold (fields_calls fields). cbn [listen].
  rewrite IH, value_index. reflexivity.
Qed.

(** C10. A value for the key [DateTime] clears the calendar fields of the
    record under construction and then converts the string into them, so the
    fields are the conversion of that string from zeroed fields whatever the
    slot held.  When the object ends, with only other keys after the
    timestamp, the [epochTime] of the record is [makeTime] of exactly these
    fields. *)
Theorem DateTime_value_replaces_calendar_fields c v :
  (eventIndex c < length (tidalEvents c))%nat ->
  (currentKey c = "DateTime"%string ->
     tm <$> tidalEvents (value v c) !! eventIndex c
     = Some (convertFromIso8601 v tm_zero))
  /\ (forall before after,
        Forall (fun kv => fst kv <> "DateTime"%string) after ->
        tm <$> tidalEvents
                 (parse (object_calls (before ++ ("DateTime"%string, v) :: after)) c)
                 !! eventIndex c
        = Some (convertFromIso8601 v tm_zero)
        /\ epochTime <$> tidalEvents
                 (parse (object_calls (before ++ ("DateTime"%string, v) :: after)) c)
                 !! eventIndex c
           = Some (makeTime time_t_bits (convertFromIso8601 v tm_zero))
        /\ isValid <$> tidalEvents
                 (parse (object_calls (before ++ ("DateTime"%string, v) :: after)) c)
                 !! eventIndex c
           = Some true).
Proof.
  intros Hi.
  assert (Hvalue : forall c0, (eventIndex c0 < length (tidalEvents c0))%nat ->
            currentKey c0 = "DateTime"%string ->
            tm <$> tidalEvents (value v c0) !! eventIndex c0
            = Some (convertFromIso8601 v tm_zero)).
  { intros c0 Hi0 Hk. apply lookup_lt_is_Some in Hi0. destruct Hi0 as [e0 He0].
    unfold value. rewrite Hk. cbn [String.eqb Ascii.eqb Bool.eqb].
    rewrite update_current_slot, He0. reflexivity. }
  split; [apply Hvalue; exact Hi|].
  intros before after Hafter.
  assert (E : object_calls (before ++ ("DateTime"%string, v) :: after)
              = [on_startObject] ++ fields_calls before
                  ++ [on_key "DateTime"; on_value v]
                  ++ fields_calls after ++ [on_endObject]).
  { unfold object_calls, fields_calls. rewrite flat_map_app.
    cbn [flat_map fst snd]. rewrite <- !app_assoc. reflexivity. }
  rewrite E, !parse_app, !parse_cons, !parse_nil.
  cbn [listen]. unfold startObject.
  set (c1 := parse (fields_calls before) c).
  destruct (any_fields_keep_index before c) as (I1 & L1). fold c1 in I1, L1.
  set (c2 := value v (key "DateTime" c1)).
  assert (I2 : eventIndex c2 = eventIndex c).
  { subst c2. rewrite value_index. exact I1. }
  assert (L2 : length (tidalEvents c2) = length (tidalEvents c)).
  { subst c2. rewrite value_length. exact L1. }
  assert (T2 : tm <$> tidalEvents c2 !! eventIndex c
               = Some (convertFromIso8601 v tm_zero)).
  { subst c2. rewrite <- I1.
    apply (Hvalue (key "DateTime" c1)); cbn [key eventIndex tidalEvents currentKey];
      [lia|reflexivity]. }
  destruct (other_fields_keep_tm after c2 Hafter) as (I3 & L3 & T3).
  set (c3 := parse (fields_calls after) c2) in *.
  rewrite I2 in I3, T3. rewrite T2 in T3.
  rewrite endObject_events, I3, list_lookup_alter_eq.
  destruct (tidalEvents c3 !! eventIndex c) as [e3|] eqn:E3; [|discriminate T3].
  cbn in T3 |- *. injection T3 as T3. rewrite T3. repeat split.
Qed.

End Listener.

(** ** The listener on sample streams *)

(** C3, as the specification states it, fails: with five objects more than
    the capacity of 30 the count is 29, not 30. *)
Lemma overflow_count_below_capacity :
  length (replicate 35 Samples.high_water)
    = (MAX_COUNT_TIDAL_EVENTS (Platform := esp8266) + 5)%nat
  /\ numberEvents (parse (P := esp8266)
                     (document_calls (replicate 35 Samples.high_water)) fresh_client)
     <> MAX_COUNT_TIDAL_EVENTS (Platform := esp8266).
Proof. split; [reflexivity|]. vm_compute. discriminate. Qed.

Lemma session_count_capped_witness :
  within_document (objects_calls [Samples.high_water; Samples.low_water])
  /\ numberEvents (parse (P := esp8266)
                     (on_startDocument
                        :: objects_calls [Samples.high_water; Samples.low_water]
                        ++ [on_endDocument])
                     fresh_client) = 2%nat.
Proof.
  assert (H : within_document (objects_calls [Samples.high_water; Samples.low_water])).
  { repeat constructor. }
  split; [exact H|].
  exact (eq_trans
           (proj1 (session_count_capped (P := esp8266) fresh_client) _ H) eq_refl).
Defined.

(** C4, as the specification states it, fails: the truncated stream has
    finalized one record, and the count is 0. *)
Lemma truncated_count_is_zero :
  count_finalized Samples.truncated_stream = 1%nat
  /\ numberEvents (parse (P := esp8266)
                     (on_startDocument :: Samples.truncated_stream) fresh_client)
     <> count_finalized Samples.truncated_stream.
Proof. split; [reflexivity|]. vm_compute. discriminate. Qed.

Lemma truncated_session_publishes_nothing_witness :
  within_document Samples.truncated_stream
  /\ numberEvents (parse (P := esp8266)
                     (on_startDocument :: Samples.truncated_stream) fresh_client) = 0%nat.
Proof.
  assert (H : within_document Samples.truncated_stream).
  { repeat constructor. }
  split; [exact H|].
  exact (proj1 (truncated_session_publishes_nothing (P := esp8266) fresh_client _ H)).
Defined.

(** C8, as the specification states it, fails: after as many records as the
    array holds, every slot is valid; one more record changes the last
    slot. *)
Lemma further_record_overwrites_last_slot :
  count_finalized (objects_calls (replicate 30 Samples.high_water))
    = MAX_COUNT_TIDAL_EVENTS (Platform := esp8266)
  /\ forallb isValid (tidalEvents Samples.full_client) = true
  /\ tidalEvents (parse (P := esp8266) (object_calls Samples.low_water) Samples.full_client)
       !! 29%nat
     <> tidalEvents Samples.full_client !! 29%nat.
Proof.
  split; [reflexivity|]. split; [vm_compute; reflexivity|].
  vm_compute. discriminate.
Qed.

Lemma pinned_index_keeps_earlier_entries_witness :
  eventIndex Samples.full_client = (MAX_COUNT_TIDAL_EVENTS (Platform := esp8266) - 1)%nat
  /\ within_document (object_calls Samples.low_water)
  /\ tidalEvents (parse (P := esp8266) (object_calls Samples.low_water) Samples.full_client)
       !! 28%nat
     = tidalEvents Samples.full_client !! 28%nat.
Proof.
  assert (H1 : eventIndex Samples.full_client
               = (MAX_COUNT_TIDAL_EVENTS (Platform := esp8266) - 1)%nat).
  { vm_compute. reflexivity. }
  assert (H2 : within_document (object_calls Samples.low_water)).
  { repeat constructor. }
  split; [exact H1|]. split; [exact H2|].
  apply (proj1 (pinned_index_keeps_earlier_entries (P := esp8266)
                  Samples.full_client _ H1 H2)).
  cbn. lia.
Defined.

Lemma DateTime_value_replaces_calendar_fields_witness :
  (eventIndex (fresh_client (P := esp8266))
   < length (tidalEvents (fresh_client (P := esp8266))))%nat
  /\ epochTime (P := esp8266) <$> tidalEvents
       (parse (P := esp8266) (object_calls Samples.high_water) fresh_client) !! 0%nat
     = Some 1539753120.
Proof.
  assert (H : (eventIndex (fresh_client (P := esp8266))
               < length (tidalEvents (fresh_client (P := esp8266))))%nat).
  { cbn. lia. }
  split; [exact H|].
  assert (F : Forall (fun kv : string * string => fst kv <> "DateTime"%string)
                 [("Height", "4.2")]%string).
  { repeat constructor. discriminate. }
  exact (eq_trans
           (proj1 (proj2 (proj2 (DateTime_value_replaces_calendar_fields
                                   (P := esp8266) fresh_client "2018-10-17T05:12:00" H)
                                [("EventType", "HighWater")]%string
                                [("Height", "4.2")]%string F)))
           eq_refl).
Defined.

(** ** Time conversion *)

Section Conversion.
Import Ints TimeLib.

Lemma code_digit a : 0 <= a < 10 -> Arduino.code (Iso8601.digit a) = 48 + a.
Proof.
  intros Ha. unfold Arduino.code, Iso8601.digit.
  rewrite N_ascii_embedding by lia. lia.
Qed.

Lemma isdigit_digit a : 0 <= a < 10 -> Arduino.isdigit (Iso8601.digit a) = true.
Proof.
  intros Ha. unfold Arduino.isdigit. rewrite code_digit by exact Ha.
  apply andb_true_intro. split; apply Z.leb_le; lia.
Qed.

Lemma isspace_digit a : 0 <= a < 10 -> Arduino.isspace (Iso8601.digit a) = false.
Proof.
  intros Ha. unfold Arduino.isspace. rewrite code_digit by exact Ha.
  apply orb_false_intro; [apply Z.eqb_neq; lia|].
  apply andb_false_intro2. apply Z.leb_gt. lia.
Qed.

Lemma atol_digits_digit a rest acc :
  0 <= a < 10 ->
  Arduino.atol_digits (String (Iso8601.digit a) rest) acc
  = Arduino.atol_digits rest (acc * 10 + a).
Proof.
  intros Ha. cbn [Arduino.atol_digits].
  rewrite isdigit_digit, code_digit by exact Ha. f_equal. lia.
Qed.

Lemma atol_digit_first a rest :
  0 <= a < 10 ->
  Arduino.atol (String (Iso8601.digit a) rest)
  = Arduino.atol_digits (String (Iso8601.digit a) rest) 0.
Proof.
  intros Ha. unfold Arduino.atol. cbn [Arduino.skip_spaces].
  rewrite isspace_digit, code_digit by exact Ha.
  replace (48 + a =? 45) with false by (symmetry; apply Z.eqb_neq; lia).
  replace (48 + a =? 43) with false by (symmetry; apply Z.eqb_neq; lia).
  reflexivity.
Qed.

Lemma toInt_two_digits n :
  0 <= n <= 99 -> Arduino.toInt (Iso8601.two_digits n EmptyString) = n.
Proof.
  intros Hn. unfold Arduino.toInt, Iso8601.two_digits.
  assert (0 <= n / 10 < 10) by (Z.to_euclidean_division_equations; lia).
  assert (0 <= n mod 10 < 10) by (Z.to_euclidean_division_equations; lia).
  rewrite atol_digit_first, !atol_digits_digit by assumption.
  cbn [Arduino.atol_digits]. Z.to_euclidean_division_equations; lia.
Qed.

Lemma toInt_four_digits n :
  0 <= n <= 9999 -> Arduino.toInt (Iso8601.four_digits n EmptyString) = n.
Proof.
  intros Hn. unfold Arduino.toInt, Iso8601.four_digits, Iso8601.two_digits.
  assert (0 <= n / 100 / 10 < 10) by (Z.to_euclidean_division_equations; lia).
  assert (0 <= (n / 100) mod 10 < 10) by (Z.to_euclidean_division_equations; lia).
  assert (0 <= (n mod 100) / 10 < 10) by (Z.to_euclidean_division_equations; lia).
  assert (0 <= (n mod 100) mod 10 < 10) by (Z.to_euclidean_division_equations; lia).
  rewrite atol_digit_first, !atol_digits_digit by assumption.
  cbn [Arduino.atol_digits]. Z.to_euclidean_division_equations; lia.
Qed.

(** The six substrings of a formatted timestamp are its six fields, whatever
    follows the seconds. *)
Lemma substrings_of_format y m d hh mm ss suffix :
  let s := Iso8601.format y m d hh mm ss suffix in
  Arduino.substring 0 4 s = Iso8601.four_digits y EmptyString
  /\ Arduino.substring 5 7 s = Iso8601.two_digits m EmptyString
  /\ Arduino.substring 8 10 s = Iso8601.two_digits d EmptyString
  /\ Arduino.substring 11 13 s = Iso8601.two_digits hh EmptyString
  /\ Arduino.substring 14 16 s = Iso8601.two_digits mm EmptyString
  /\ Arduino.substring 17 19 s = Iso8601.two_digits ss EmptyString.
Proof.
  cbv zeta. repeat split; try reflexivity.
  destruct suffix; reflexivity.
Qed.

Lemma convertFromIso8601_format y m d hh mm ss suffix tm_data :
  1970 <= y <= 2225 -> 0 <= m <= 99 -> 0 <= d <= 99 ->
  0 <= hh <= 99 -> 0 <= mm <= 99 -> 0 <= ss <= 99 ->
  convertFromIso8601 (Iso8601.format y m d hh mm ss suffix) tm_data
  = mk_tm ss mm hh (Wday tm_data) d m (y - 1970).
Proof.
  intros Hy Hm Hd Hhh Hmm Hss. unfold convertFromIso8601.
  destruct (substrings_of_format y m d hh mm ss suffix) as (E1 & E2 & E3 & E4 & E5 & E6).
  rewrite E1, E2, E3, E4, E5, E6.
  rewrite toInt_four_digits by lia. rewrite !toInt_two_digits by lia.
  rewrite !uint8_t_small by lia. reflexivity.
Qed.

(** For the years 1970..2037 and the twelve months the two loops give the
    calendar's count of days, by evaluation of every case. *)
Lemma month_start_table :
  forallb (fun y =>
    forallb (fun m =>
      let v := month_start_seconds (Z.of_nat y) (Z.of_nat m) in
      (v =? Gregorian.days_from_epoch (1970 + Z.of_nat y) (Z.of_nat m) 1 * 86400)
      && (0 <=? v) && (v <=? 2143238400))
      (seq 1 12))
    (seq 0 68) = true.
Proof. vm_compute. reflexivity. Qed.

Lemma month_start_seconds_calendar y m :
  0 <= y <= 67 -> 1 <= m <= 12 ->
  month_start_seconds y m = Gregorian.days_from_epoch (1970 + y) m 1 * 86400
  /\ 0 <= month_start_seconds y m <= 2143238400.
Proof.
  intros Hy Hm. pose proof month_start_table as T.
  rewrite forallb_forall in T.
  specialize (T (Z.to_nat y) ltac:(apply in_seq; lia)).
  rewrite forallb_forall in T.
  specialize (T (Z.to_nat m) ltac:(apply in_seq; lia)).
  cbv zeta in T. rewrite !Z2Nat.id in T by lia.
  apply andb_prop in T as [T T3]. apply andb_prop in T as [T1 T2].
  apply Z.eqb_eq in T1. apply Z.leb_le in T2, T3. lia.
Qed.

Lemma days_in_month_le y m : Gregorian.days_in_month y m <= 31.
Proof.
  unfold Gregorian.days_in_month.
  repeat match goal with |- context [if ?b then _ else _] => destruct b end; lia.
Qed.

Lemma makeTime_calendar bits y m d hh mm ss w :
  32 <= bits -> 1970 <= y <= 2037 ->
  Gregorian.valid_date y m d -> Gregorian.valid_time hh mm ss ->
  makeTime bits (mk_tm ss mm hh w d m (y - 1970)) = Gregorian.utc_epoch y m d hh mm ss.
Proof.
  intros Hb Hy [Hm Hd] (Hhh & Hmm & Hss).
  pose proof (days_in_month_le y m) as Hdm.
  destruct (month_start_seconds_calendar (y - 1970) m ltac:(lia) Hm) as [E R].
  replace (1970 + (y - 1970)) with y in E by lia.
  assert (U : Gregorian.utc_epoch y m d hh mm ss
              = month_start_seconds (y - 1970) m + (d - 1) * 86400
                + hh * 3600 + mm * 60 + ss).
  { rewrite E. unfold Gregorian.utc_epoch, Gregorian.days_from_epoch. lia. }
  unfold makeTime. cbn [Year Month Day Hour Minute Second].
  fold (month_start_seconds (y - 1970) m).
  set (s0 := month_start_seconds (y - 1970) m) in *.
  change SECS_PER_DAY with 86400. change SECS_PER_HOUR with 3600.
  change SECS_PER_MIN with 60.
  rewrite (uint32_t_small (s0 + (d - 1) * 86400)) by lia.
  rewrite (uint32_t_small (s0 + (d - 1) * 86400 + hh * 3600)) by lia.
  rewrite (uint32_t_small (s0 + (d - 1) * 86400 + hh * 3600 + mm * 60)) by lia.
  rewrite (uint32_t_small (s0 + (d - 1) * 86400 + hh * 3600 + mm * 60 + ss)) by lia.
  rewrite wrap_signed_small; [lia|lia|].
  assert (2 ^ 31 <= 2 ^ (bits - 1)) by (apply Z.pow_le_mono_r; lia).
  change (2 ^ 31) with 2147483648 in *. lia.
Qed.

End Conversion.

Section Timestamps.
Context `{P : Platform}.
Import Ints TimeLib.




End Timestamps.



(** The end-to-end scenario: a document with a high water at 05:12 and a low
    water at 11:30 gives a store of two entries in that order; at 08:00 the
    previous tide is the high water and the next one the low water. *)
Example two_tides_scenario :
  let c := parse (P := esp8266)
             (document_calls [Samples.high_water; Samples.low_water]) fresh_client in
  numberEvents c = 2%nat
  /\ map isValid (entries c) = [true; true]
  /\ isHighTide (PreviousTidalEvent c (Gregorian.utc_epoch 2018 10 17 8 0 0)) = true
  /\ dateTime (PreviousTidalEvent c (Gregorian.utc_epoch 2018 10 17 8 0 0))
     = "2018-10-17T05:12:00"%string
  /\ isHighTide (NextTidalEvent c (Gregorian.utc_epoch 2018 10 17 8 0 0)) = false
  /\ dateTime (NextTidalEvent c (Gregorian.utc_epoch 2018 10 17 8 0 0))
     = "2018-10-17T11:30:00"%string.
Proof. vm_compute. repeat split. Qed.

(** * Further properties of the code *)

(** ** The queries on any store *)

Section QueriesAnyStore.
Context `{P : Platform}.
Implicit Types (c : AdmiraltyApiClient) (e : TidalEvent) (t : Z).

Lemma previous_loop_leading events t i n best :
  previous_loop events t i n best
  = default best (last (leading_not_after t (map (event_at events) (seq i n)))).
Proof.
  revert i best. induction n as [|n IH]; intros i best; [reflexivity|].
  cbn [previous_loop seq map leading_not_after].
  destruct (epochTime (event_at events i) <=? t); [|reflexivity].
  rewrite IH, last_cons. destruct (last _); reflexivity.
Qed.

Lemma leading_not_after_In t (l : list TidalEvent) e :
  In e (leading_not_after t l) -> In e l /\ epochTime e <= t.
Proof.
  induction l as [|a l IH]; cbn [leading_not_after]; [intros []|].
  destruct (Z.leb_spec (epochTime a) t) as [Ha|Ha]; [|intros []].
  intros [<-|He]; [split; [left; reflexivity|exact Ha]|].
  destruct (IH He) as [H1 H2]. split; [right; exact H1|exact H2].
Qed.

Lemma PreviousTidalEvent_stops_at_first_later_aux c t :
  PreviousTidalEvent c t = TidalEvent_default
  \/ (In (PreviousTidalEvent c t) (entries c)
      /\ epochTime (PreviousTidalEvent c t) <= t).
Proof.
  assert (E : PreviousTidalEvent c t
    = default TidalEvent_default (last (leading_not_after t (entries c)))).
  { apply previous_loop_leading. }
  rewrite E. destruct (last (leading_not_after t (entries c))) as [y|] eqn:Ey.
  - right. cbn [default]. apply leading_not_after_In with (l := entries c).
    apply list_elem_of_In. apply last_Some_elem_of. exact Ey.
  - left. reflexivity.
Qed.

(** X1. On any store, ordered or not, [PreviousTidalEvent] looks only at the
    entries before the first one that is after [t] and returns the last of
    them: what it returns is the default record or a stored entry not after
    [t], and when the first entry is after [t] it is the default record
    whatever follows. *)
Theorem PreviousTidalEvent_stops_at_first_later c t :
  PreviousTidalEvent c t
  = default TidalEvent_default (last (leading_not_after t (entries c)))
  /\ (PreviousTidalEvent c t = TidalEvent_default
      \/ (In (PreviousTidalEvent c t) (entries c)
          /\ epochTime (PreviousTidalEvent c t) <= t))
  /\ (forall e rest, entries c = e :: rest -> t < epochTime e ->
        PreviousTidalEvent c t = TidalEvent_default).
Proof.
  assert (E : PreviousTidalEvent c t
    = default TidalEvent_default (last (leading_not_after t (entries c)))).
  { apply previous_loop_leading. }
  split; [exact E|]. split.
  - apply PreviousTidalEvent_stops_at_first_later_aux.
  - intros e rest He Hlt. rewrite E, He. cbn [leading_not_after].
    destruct (Z.leb_spec (epochTime e) t); [lia|reflexivity].
Qed.

Lemma sorted_split t (l : list TidalEvent) :
  StronglySorted (fun a b => epochTime a <= epochTime b) l ->
  l = filter (fun e => epochTime e <= t) l ++ filter (fun e => t < epochTime e) l.
Proof.
  induction 1 as [|a l Hl IH Ha]; [reflexivity|].
  destruct (decide (epochTime a <= t)) as [Hle|Hgt].
  - rewrite (filter_cons_True (fun e => epochTime e <= t)) by exact Hle.
    rewrite (filter_cons_False (fun e => t < epochTime e)) by lia.
    cbn [app]. f_equal. exact IH.
  - rewrite (filter_cons_False (fun e => epochTime e <= t)) by exact Hgt.
    rewrite (filter_cons_True (fun e => t < epochTime e)) by lia.
    rewrite (filter_none (fun e => epochTime e <= t)).
    + cbn [app]. f_equal.
      rewrite (filter_none (fun e => epochTime e <= t)) in IH; [exact IH|].
      intros x Hx Hbad. rewrite List.Forall_forall in Ha.
      specialize (Ha x Hx). cbn in Ha. lia.
    + intros x Hx Hbad. rewrite List.Forall_forall in Ha.
      specialize (Ha x Hx). cbn in Ha. lia.
Qed.

(** X2. On a store in time order the two queries cut the entries at [t]: the
    entries are those not after [t] followed by those after [t],
    [PreviousTidalEvent] returns the last of the first part and
    [NextTidalEvent] the first of the second, so no stored entry lies
    between the two results. *)
Theorem queries_cut_the_store c t :
  chronological c ->
  exists before after,
    entries c = before ++ after
    /\ Forall (fun e => epochTime e <= t) before
    /\ Forall (fun e => t < epochTime e) after
    /\ PreviousTidalEvent c t = default TidalEvent_default (last before)
    /\ NextTidalEvent c t = default TidalEvent_default (head after).
Proof.
  intros Hc. apply chronological_strongly in Hc.
  exists (filter (fun e => epochTime e <= t) (entries c)),
         (filter (fun e => t < epochTime e) (entries c)).
  split; [apply sorted_split; exact Hc|].
  split; [apply Forall_forall; intros e He;
          apply list_elem_of_filter in He as [He _]; exact He|].
  split; [apply Forall_forall; intros e He;
          apply list_elem_of_filter in He as [He _]; exact He|].
  split; [apply previous_loop_scan; exact Hc|apply next_loop_scan].
Qed.

(** X3. When every stored entry is valid, as after a complete document, the
    [isValid] flag of a result tells whether an entry was found:
    [NextTidalEvent] is valid exactly when some entry is after [t], and on a
    store in time order [PreviousTidalEvent] is valid exactly when some
    entry is not after [t]. *)
Theorem isValid_tells_found c t :
  Forall (fun e => isValid e = true) (entries c) ->
  (isValid (NextTidalEvent c t) = true
   <-> exists e, In e (entries c) /\ t < epochTime e)
  /\ (chronological c ->
      (isValid (PreviousTidalEvent c t) = true
       <-> exists e, In e (entries c) /\ epochTime e <= t)).
Proof.
  intros Hv. rewrite Forall_forall in Hv. split.
  - unfold NextTidalEvent. fold (entries c).
    assert (E : NextTidalEvent c t
      = default TidalEvent_default
          (head (filter (fun e => t < epochTime e) (entries c)))).
    { apply next_loop_scan. }
    fold (NextTidalEvent c t). rewrite E.
    destruct (head (filter (fun e => t < epochTime e) (entries c))) as [y|] eqn:Ey.
    + cbn [default]. apply head_Some_elem_of in Ey.
      apply list_elem_of_filter in Ey as [Ey1 Ey2]. split.
      * intros _. exists y. split; [apply list_elem_of_In; exact Ey2|exact Ey1].
      * intros _. apply Hv. exact Ey2.
    + cbn [default TidalEvent_default isValid]. split; [discriminate|].
      intros (e & He & Hlt). apply head_None in Ey. exfalso.
      apply (filter_nil_not_elem_of (fun e => t < epochTime e) _ e Ey Hlt).
      apply list_elem_of_In. exact He.
  - intros Hc. split.
    + intros Hvalid.
      destruct (PreviousTidalEvent_stops_at_first_later_aux c t) as [Hd|[Hin Hle]].
      * rewrite Hd in Hvalid. discriminate Hvalid.
      * exists (PreviousTidalEvent c t). split; assumption.
    + intros (e & He & Hle).
      destruct (PreviousTidalEvent_last_not_after_aux c t Hc e He Hle) as (Hin & _).
      apply Hv. apply list_elem_of_In. exact Hin.
Qed.

End QueriesAnyStore.

(** ** Objects with any fields *)

Section ObjectAssembly.
Context `{P : Platform}.
Import TimeLib.
Implicit Types (c : AdmiraltyApiClient) (e : TidalEvent)
  (fields : list (string * string)).

Lemma fields_calls_snoc fields k v :
  fields_calls (fields ++ [(k, v)]) = fields_calls fields ++ [on_key k; on_value v].
Proof. unfold fields_calls. rewrite flat_map_app. reflexivity. Qed.

Lemma values_of_cons k k' v fields :
  values_of k ((k', v) :: fields)
  = if String.eqb k' k then v :: values_of k fields else values_of k fields.
Proof.
  unfold values_of. cbn [List.filter fst].
  destruct (String.eqb k' k); reflexivity.
Qed.

Lemma last_value_snoc k k' v fields :
  last_value k (fields ++ [(k', v)])
  = if String.eqb k' k then Some v else last_value k fields.
Proof.
  unfold last_value, values_of. rewrite List.filter_app, map_app.
  cbn [List.filter fst]. destruct (String.eqb k' k); cbn [map snd].
  - apply last_snoc.
  - rewrite app_nil_r. reflexivity.
Qed.

Lemma gathered_nil e : gathered [] e = e.
Proof. destruct e. reflexivity. Qed.

(** The fields of an object, one key/value pair after the other, leave in
    the slot at the index what [gathered] describes. *)
Lemma fields_calls_gathered fields c :
  tidalEvents (parse (fields_calls fields) c)
  = alter (gathered fields) (eventIndex c) (tidalEvents c).
Proof.
  induction fields as [|[k v] fields IH] using rev_ind.
  - rewrite parse_nil. symmetry. apply list_alter_id. intros e. apply gathered_nil.
  - rewrite fields_calls_snoc, parse_app, !parse_cons, parse_nil. cbn [listen].
    set (c1 := parse (fields_calls fields) c) in *.
    assert (I1 : eventIndex c1 = eventIndex c) by apply any_fields_keep_index.
    unfold value. cbn [key currentKey].
    destruct (String.eqb k "EventType") eqn:E1;
      [|destruct (String.eqb k "DateTime") eqn:E2;
        [|destruct (String.eqb k "Height") eqn:E3]];
      cbn [update_current key tidalEvents eventIndex];
      rewrite ?IH, ?I1, ?list_alter_alter_eq;
      (apply list_alter_ext; [intros e _|reflexivity]); unfold gathered, compose;
      rewrite !last_value_snoc.
    + apply String.eqb_eq in E1. subst k. reflexivity.
    + apply String.eqb_eq in E2. subst k. reflexivity.
    + apply String.eqb_eq in E3. subst k. reflexivity.
    + rewrite E1, E2, E3. reflexivity.
Qed.

Lemma endObject_index_if c :
  eventIndex (endObject c)
  = (if (eventIndex c <? MAX_COUNT_TIDAL_EVENTS - 1)%nat
     then S (eventIndex c) else eventIndex c).
Proof.
  unfold endObject. cbn [update_current eventIndex].
  destruct (eventIndex c <? MAX_COUNT_TIDAL_EVENTS - 1)%nat; reflexivity.
Qed.

Lemma object_calls_run fields c :
  tidalEvents (parse (object_calls fields) c)
  = alter (assembled fields) (eventIndex c) (tidalEvents c)
  /\ eventIndex (parse (object_calls fields) c)
     = (if (eventIndex c <? MAX_COUNT_TIDAL_EVENTS - 1)%nat
        then S (eventIndex c) else eventIndex c)
  /\ numberEvents (parse (object_calls fields) c) = numberEvents c.
Proof.
  unfold object_calls. rewrite parse_cons, parse_app, parse_cons, parse_nil.
  cbn [listen]. unfold startObject.
  destruct (any_fields_keep_index fields c) as [I1 _].
  assert (N1 : numberEvents (parse (fields_calls fields) c) = numberEvents c).
  { apply parse_within_document, within_document_fields. }
  split; [|split].
  - rewrite endObject_events, I1.
    rewrite fields_calls_gathered, list_alter_alter_eq. reflexivity.
  - rewrite endObject_index_if, I1. reflexivity.
  - rewrite endObject_count. exact N1.
Qed.

(** X4. An object with any fields, in any order and with repetitions, puts
    in the slot at the index the record in which each known key holds its
    last value and a key that does not occur keeps what the slot held; the
    epoch time is computed from the resulting calendar fields and the record
    is marked valid, also when the object has no [DateTime] or no field at
    all.  No other slot changes. *)
Theorem object_last_value_wins fields c :
  (eventIndex c < length (tidalEvents c))%nat ->
  tidalEvents (parse (object_calls fields) c) !! eventIndex c
  = assembled fields <$> tidalEvents c !! eventIndex c
  /\ (forall i, i <> eventIndex c ->
        tidalEvents (parse (object_calls fields) c) !! i = tidalEvents c !! i)
  /\ (last_value "DateTime" fields = None ->
        forall e, tidalEvents c !! eventIndex c = Some e ->
        exists e', tidalEvents (parse (object_calls fields) c) !! eventIndex c = Some e'
                   /\ tm e' = tm e /\ dateTime e' = dateTime e
                   /\ epochTime e' = makeTime time_t_bits (tm e)
                   /\ isValid e' = true).
Proof.
  intros Hi. destruct (object_calls_run fields c) as (E & _ & _). rewrite E.
  split; [apply list_lookup_alter_eq|]. split.
  - intros i Hne. apply list_lookup_alter_ne. congruence.
  - intros Hnone e He. exists (assembled fields e).
    rewrite list_lookup_alter_eq, He. unfold assembled, gathered. rewrite Hnone.
    repeat split.
Qed.

Lemma values_of_absent k fields :
  ~ In k (map fst fields) -> values_of k fields = [].
Proof.
  induction fields as [|[k' v] fields IH]; intros Hk; [reflexivity|].
  rewrite values_of_cons. cbn [map fst In] in Hk.
  destruct (String.eqb_spec k' k) as [->|_]; [tauto|]. apply IH. tauto.
Qed.

Lemma last_value_distinct_keys k v fields :
  List.NoDup (map fst fields) ->
  last_value k fields = Some v <-> In (k, v) fields.
Proof.
  unfold last_value. induction fields as [|[k' v'] fields IH]; intros Hnd.
  - cbn. split; [discriminate|tauto].
  - cbn [map fst] in Hnd. inversion Hnd as [|? ? Hnot Hnd']; subst.
    rewrite values_of_cons. destruct (String.eqb_spec k' k) as [->|Hne].
    + rewrite values_of_absent by exact Hnot. cbn [last]. split.
      * intros [= ->]. left. reflexivity.
      * intros [[= ->]|Hin]; [reflexivity|]. exfalso. apply Hnot.
        apply in_map_iff. exists (k, v). split; [reflexivity|exact Hin].
    + rewrite (IH Hnd'). split; [intros H; right; exact H|].
      intros [[= -> ->]|Hin]; [congruence|exact Hin].
Qed.

Lemma last_value_permutation k fields fields' :
  List.NoDup (map fst fields) -> Permutation fields fields' ->
  last_value k fields = last_value k fields'.
Proof.
  intros Hnd Hp.
  assert (Hnd' : List.NoDup (map fst fields')).
  { eapply Permutation_NoDup; [|exact Hnd]. apply Permutation_map. exact Hp. }
  destruct (last_value k fields) as [v|] eqn:E1.
  - symmetry. apply last_value_distinct_keys; [exact Hnd'|].
    apply (Permutation_in _ Hp). apply last_value_distinct_keys; assumption.
  - destruct (last_value k fields') as [v'|] eqn:E2; [|reflexivity].
    apply last_value_distinct_keys in E2; [|exact Hnd'].
    apply (Permutation_in _ (Permutation_sym Hp)) in E2.
    apply last_value_distinct_keys in E2; [|exact Hnd]. congruence.
Qed.

(** X5. The order of the fields of an object does not matter when no key is
    repeated: the same fields in another order leave the same array, the
    same index and the same count. *)
Theorem field_order_is_irrelevant fields fields' c :
  List.NoDup (map fst fields) -> Permutation fields fields' ->
  tidalEvents (parse (object_calls fields') c) = tidalEvents (parse (object_calls fields) c)
  /\ eventIndex (parse (object_calls fields') c) = eventIndex (parse (object_calls fields) c)
  /\ numberEvents (parse (object_calls fields') c) = numberEvents (parse (object_calls fields) c).
Proof.
  intros Hnd Hp.
  destruct (object_calls_run fields c) as (E1 & I1 & N1).
  destruct (object_calls_run fields' c) as (E2 & I2 & N2).
  rewrite E1, E2, I1, I2, N1, N2. repeat split.
  apply list_alter_ext; [intros e _|reflexivity]. unfold assembled, gathered.
  rewrite !(last_value_permutation _ fields fields' Hnd Hp). reflexivity.
Qed.

Lemma values_of_known k fields :
  known_key k = true ->
  values_of k (List.filter (fun kv => known_key (fst kv)) fields) = values_of k fields.
Proof.
  intros Hk. induction fields as [|[k' v] fields IH]; [reflexivity|].
  cbn [List.filter fst]. rewrite values_of_cons.
  destruct (String.eqb_spec k' k) as [->|Hne].
  - rewrite Hk, values_of_cons, String.eqb_refl, IH. reflexivity.
  - destruct (known_key k'); [|exact IH].
    rewrite values_of_cons. apply String.eqb_neq in Hne. rewrite Hne. exact IH.
Qed.

(** X6. Keys other than [EventType], [DateTime] and [Height] are ignored:
    an object and the same object without its fields of other keys leave
    the same array, index and count. *)
Theorem unknown_keys_are_ignored fields c :
  let known := List.filter (fun kv => known_key (fst kv)) fields in
  tidalEvents (parse (object_calls known) c) = tidalEvents (parse (object_calls fields) c)
  /\ eventIndex (parse (object_calls known) c) = eventIndex (parse (object_calls fields) c)
  /\ numberEvents (parse (object_calls known) c) = numberEvents (parse (object_calls fields) c).
Proof.
  cbv zeta.
  destruct (object_calls_run fields c) as (E1 & I1 & N1).
  destruct (object_calls_run (List.filter (fun kv => known_key (fst kv)) fields) c)
    as (E2 & I2 & N2).
  rewrite E1, E2, I1, I2, N1, N2. repeat split.
  apply list_alter_ext; [intros e _|reflexivity]. unfold assembled, gathered, last_value.
  rewrite !values_of_known by reflexivity. reflexivity.
Qed.

End ObjectAssembly.

(** ** Whole sessions *)

Section Sessions.
Context `{P : Platform}.
Import TimeLib.
Implicit Types (c : AdmiraltyApiClient) (e : TidalEvent) (cb : callback)
  (calls : list callback).

Lemma listen_count_below_index cb c :
  (numberEvents c <= eventIndex c)%nat ->
  (numberEvents (listen c cb) <= eventIndex (listen c cb))%nat.
Proof.
  intros H. destruct cb; cbn [listen whitespace startDocument key endArray
    endDocument startArray startObject eventIndex numberEvents];
    try exact H; try lia.
  - rewrite value_count, value_index. exact H.
  - rewrite endObject_count. pose proof (endObject_index_le c). lia.
Qed.

Lemma parse_count_below_index calls c :
  (numberEvents c <= eventIndex c)%nat ->
  (numberEvents (parse calls c) <= eventIndex (parse calls c))%nat.
Proof.
  revert c. induction calls as [|cb calls IH]; intros c H; [exact H|].
  rewrite parse_cons. apply IH, listen_count_below_index, H.
Qed.

(** X7. Whatever calls the parser makes, in whatever order, the array keeps
    its size, the index of the record under construction stays inside the
    array, and the published count stays at or below the index and below the
    capacity: no call sequence makes the listener write or the queries read
    outside [tidalEvents]. *)
Theorem listener_stays_in_bounds c calls :
  store_invariant c -> (numberEvents c <= eventIndex c)%nat ->
  (1 <= MAX_COUNT_TIDAL_EVENTS)%nat ->
  length (tidalEvents (parse calls c)) = MAX_COUNT_TIDAL_EVENTS
  /\ (eventIndex (parse calls c) < length (tidalEvents (parse calls c)))%nat
  /\ (numberEvents (parse calls c) <= eventIndex (parse calls c))%nat
  /\ (numberEvents (parse calls c) < MAX_COUNT_TIDAL_EVENTS)%nat.
Proof.
  intros Hinv Hle Hmax.
  destruct (parse_invariant calls c Hinv) as (L & I & N).
  pose proof (parse_count_below_index calls c Hle).
  repeat split; lia.
Qed.

Lemma entries_ext c c' :
  numberEvents c' = numberEvents c ->
  (forall i, (i < numberEvents c)%nat -> tidalEvents c' !! i = tidalEvents c !! i) ->
  entries c' = entries c.
Proof.
  intros Hn Hs. unfold entries. rewrite Hn. apply map_ext_in.
  intros i Hi. apply in_seq in Hi. unfold event_at. rewrite Hs by lia. reflexivity.
Qed.

Lemma queries_of_entries c c' t :
  entries c' = entries c ->
  PreviousTidalEvent c' t = PreviousTidalEvent c t
  /\ NextTidalEvent c' t = NextTidalEvent c t.
Proof.
  intros E. split.
  - unfold PreviousTidalEvent. rewrite !previous_loop_leading.
    fold (entries c') (entries c). rewrite E. reflexivity.
  - unfold NextTidalEvent. rewrite !next_loop_scan.
    fold (entries c') (entries c). rewrite E. reflexivity.
Qed.

(** X8. After a document has ended, the entries it published are frozen
    until the next document starts: callbacks of objects, keys and values
    that arrive without a document start change neither the entries nor the
    answer of any query. *)
Theorem published_entries_are_frozen c calls :
  (numberEvents c <= eventIndex c)%nat ->
  within_document calls ->
  entries (parse calls c) = entries c
  /\ forall t,
       PreviousTidalEvent (parse calls c) t = PreviousTidalEvent c t
       /\ NextTidalEvent (parse calls c) t = NextTidalEvent c t.
Proof.
  intros Hle Hw.
  destruct (parse_within_document calls c Hw) as (Hn & _ & _ & Ho).
  assert (E : entries (parse calls c) = entries c).
  { apply entries_ext; [exact Hn|]. intros i Hi. apply Ho. lia. }
  split; [exact E|]. intros t. apply queries_of_entries. exact E.
Qed.

(** X9. The callbacks for white space, for the start and the end of an
    array and for the start of an object have no effect: a stream and the
    same stream without them leave the client in the same state. *)
Theorem structural_calls_have_no_effect calls c :
  parse (List.filter (fun cb => negb (is_structural cb)) calls) c = parse calls c.
Proof.
  revert c. induction calls as [|cb calls IH]; intros c; [reflexivity|].
  cbn [List.filter]. destruct cb; cbn [is_structural negb];
    rewrite ?parse_cons; apply IH.
Qed.

Lemma listen_valid_below cb c :
  store_invariant c -> is_document_boundary cb = false ->
  (forall i, (i < eventIndex c)%nat -> isValid <$> tidalEvents c !! i = Some true) ->
  forall i, (i < eventIndex (listen c cb))%nat ->
    isValid <$> tidalEvents (listen c cb) !! i = Some true.
Proof.
  intros (L & I & _) Hb Hv.
  destruct cb; cbn [is_document_boundary listen] in *; try discriminate Hb;
    try exact Hv.
  - rewrite value_index. intros i Hi. rewrite value_other by lia. apply Hv, Hi.
  - rewrite endObject_index_if. intros i Hi.
    destruct (Nat.ltb_spec (eventIndex c) (MAX_COUNT_TIDAL_EVENTS - 1)) as [Hlt|Hge].
    + destruct (decide (i = eventIndex c)) as [->|Hne].
      * rewrite endObject_events, list_lookup_alter_eq.
        destruct (lookup_lt_is_Some_2 (tidalEvents c) (eventIndex c) ltac:(lia))
          as [e He].
        rewrite He. reflexivity.
      * rewrite endObject_other by exact Hne. apply Hv. lia.
    + rewrite endObject_other by lia. apply Hv, Hi.
Qed.

Lemma parse_valid_below calls c :
  store_invariant c -> within_document calls ->
  (forall i, (i < eventIndex c)%nat -> isValid <$> tidalEvents c !! i = Some true) ->
  forall i, (i < eventIndex (parse calls c))%nat ->
    isValid <$> tidalEvents (parse calls c) !! i = Some true.
Proof.
  intros Hinv Hw. revert c Hinv. induction Hw as [|cb calls Hcb _ IH]; intros c Hinv Hv.
  - exact Hv.
  - rewrite parse_cons. apply IH; [apply listen_invariant, Hinv|].
    apply listen_valid_below; assumption.
Qed.

(** X10. After a complete document, whatever callbacks it was made of, every
    published entry is a record that an end of object has finalized in this
    document: all the entries the queries can return are marked valid. *)
Theorem published_entries_are_valid c body :
  store_invariant c -> within_document body ->
  Forall (fun e => isValid e = true)
         (entries (parse (on_startDocument :: body ++ [on_endDocument]) c)).
Proof.
  intros Hinv Hw. rewrite parse_cons, parse_app, parse_cons, parse_nil. cbn [listen].
  set (c2 := parse body (startDocument c)).
  assert (Hinv0 : store_invariant (startDocument c)).
  { apply (listen_invariant on_startDocument), Hinv. }
  assert (V : forall i, (i < eventIndex c2)%nat ->
                isValid <$> tidalEvents c2 !! i = Some true).
  { apply parse_valid_below; [exact Hinv0|exact Hw|].
    cbn [startDocument eventIndex]. intros i Hi. lia. }
  unfold entries. cbn [endDocument numberEvents tidalEvents].
  apply Forall_forall. intros e He. apply list_elem_of_In, in_map_iff in He.
  destruct He as (i & <- & Hi). apply in_seq in Hi.
  specialize (V i ltac:(lia)). unfold event_at.
  destruct (tidalEvents c2 !! i) as [x|]; [|discriminate V].
  cbn in V |- *. congruence.
Qed.

End Sessions.

Section SessionContents.
Context `{P : Platform}.
Import TimeLib.
Implicit Types (c : AdmiraltyApiClient) (e : TidalEvent)
  (objects : list (list (string * string))).

Lemma objects_calls_cons o objects :
  objects_calls (o :: objects) = object_calls o ++ objects_calls objects.
Proof. reflexivity. Qed.

(** The objects of an array fill the slots from the index on, one each, as
    long as the index can advance. *)
Lemma objects_calls_run objects c j o :
  objects !! j = Some o ->
  (eventIndex c + j < MAX_COUNT_TIDAL_EVENTS - 1)%nat ->
  tidalEvents (parse (objects_calls objects) c) !! (eventIndex c + j)%nat
  = assembled o <$> tidalEvents c !! (eventIndex c + j)%nat.
Proof.
  revert c j. induction objects as [|o1 objects IH]; intros c j Ho Hj; [discriminate Ho|].
  rewrite objects_calls_cons, parse_app.
  destruct (object_calls_run o1 c) as (E1 & I1 & _).
  destruct (Nat.ltb_spec (eventIndex c) (MAX_COUNT_TIDAL_EVENTS - 1)) as [_|Hge]; [|lia].
  destruct j as [|j].
  - cbn in Ho. injection Ho as ->. rewrite Nat.add_0_r.
    destruct (parse_within_document (objects_calls objects)
                (parse (object_calls o) c) (within_document_objects objects))
      as (_ & _ & _ & Hframe).
    rewrite Hframe by lia. rewrite E1. apply list_lookup_alter_eq.
  - cbn in Ho.
    replace (eventIndex c + S j)%nat
      with (eventIndex (parse (object_calls o1) c) + j)%nat by lia.
    rewrite (IH _ j Ho) by lia.
    rewrite E1, list_lookup_alter_ne by lia. reflexivity.
Qed.

Lemma document_calls_run objects c :
  parse (document_calls objects) c
  = endDocument (parse (objects_calls objects) (startDocument c)).
Proof.
  unfold document_calls. rewrite !parse_cons, parse_app, !parse_cons, parse_nil.
  reflexivity.
Qed.

Lemma lookup_map_seq {A} (g : nat -> A) n i :
  map g (seq 0 n) !! i = if (i <? n)%nat then Some (g i) else None.
Proof.
  change (map g (seq 0 n)) with (g <$> seq 0 n).
  rewrite list_lookup_fmap.
  destruct (Nat.ltb_spec i n).
  - rewrite lookup_seq_lt by lia. reflexivity.
  - rewrite lookup_seq_ge by lia. reflexivity.
Qed.

Lemma document_calls_entries c objects :
  length (tidalEvents c) = MAX_COUNT_TIDAL_EVENTS ->
  entries (parse (document_calls objects) c)
  = zip_with assembled (take (MAX_COUNT_TIDAL_EVENTS - 1) objects) (tidalEvents c).
Proof.
  intros Hlen. rewrite document_calls_run.
  set (c0 := startDocument c). set (c2 := parse (objects_calls objects) c0).
  assert (I2 : eventIndex c2
               = Nat.min (length objects) (MAX_COUNT_TIDAL_EVENTS - 1)).
  { subst c2. rewrite parse_index_within_document;
      [|apply within_document_objects|cbn; lia].
    rewrite count_finalized_objects. reflexivity. }
  unfold entries. cbn [endDocument numberEvents tidalEvents]. rewrite I2.
  apply list_eq. intros i. rewrite lookup_map_seq, lookup_zip_with.
  destruct (Nat.ltb_spec i (Nat.min (length objects) (MAX_COUNT_TIDAL_EVENTS - 1)))
    as [Hlt|Hge].
  - rewrite lookup_take_lt by lia.
    destruct (lookup_lt_is_Some_2 objects i ltac:(lia)) as [o Ho].
    destruct (lookup_lt_is_Some_2 (tidalEvents c) i ltac:(lia)) as [e He].
    rewrite Ho, He. cbn. f_equal. unfold event_at.
    pose proof (objects_calls_run objects c0 i o Ho) as R.
    cbn [c0 startDocument eventIndex tidalEvents] in R. cbn [Nat.add] in R.
    fold c0 in R. fold c2 in R. rewrite R by lia. rewrite He. reflexivity.
  - destruct (Nat.le_gt_cases (MAX_COUNT_TIDAL_EVENTS - 1) i) as [H1|H1].
    + rewrite lookup_take_ge by exact H1. reflexivity.
    + rewrite lookup_take_lt by lia.
      rewrite (lookup_ge_None_2 objects i) by lia. reflexivity.
Qed.

(** X11. A complete document made of an array of objects publishes one
    entry for each of its first [MAX_COUNT_TIDAL_EVENTS - 1] objects, in the
    order of the array: entry [j] is the record of object [j] assembled over
    what slot [j] held.  Objects from number [MAX_COUNT_TIDAL_EVENTS] on
    never show in the entries. *)
Theorem document_entries c objects :
  length (tidalEvents c) = MAX_COUNT_TIDAL_EVENTS ->
  entries (parse (document_calls objects) c)
  = zip_with assembled (take (MAX_COUNT_TIDAL_EVENTS - 1) objects) (tidalEvents c).
Proof. apply document_calls_entries. Qed.

Lemma assembled_tidal_object eventType stamp height e :
  assembled (tidal_object eventType stamp height) e
  = tidal_record eventType stamp height.
Proof. reflexivity. Qed.

(** X12. For a document of tidal events, each with its three fields, the
    published entries are exactly the records of the first
    [MAX_COUNT_TIDAL_EVENTS - 1] events in the order of the feed, whatever
    the store held before: nothing of an earlier document survives in
    them. *)
Theorem tidal_document_entries c (tides : list (string * string * string)) :
  length (tidalEvents c) = MAX_COUNT_TIDAL_EVENTS ->
  entries (parse
             (document_calls
                (map (fun x => tidal_object (fst (fst x)) (snd (fst x)) (snd x)) tides))
             c)
  = map (fun x => tidal_record (fst (fst x)) (snd (fst x)) (snd x))
        (take (MAX_COUNT_TIDAL_EVENTS - 1) tides).
Proof.
  intros Hlen. rewrite document_calls_entries by exact Hlen.
  revert Hlen. generalize (tidalEvents c). generalize MAX_COUNT_TIDAL_EVENTS.
  intros n events <-. revert tides.
  induction events as [|e events IH]; intros tides; [reflexivity|].
  cbn [length Nat.sub]. rewrite Nat.sub_0_r.
  destruct tides as [|x tides]; [destruct (length events); reflexivity|].
  destruct events as [|e' events]; [reflexivity|].
  cbn [length take map zip_with]. rewrite assembled_tidal_object. f_equal.
  specialize (IH tides). cbn [length Nat.sub] in IH. rewrite Nat.sub_0_r in IH.
  exact IH.
Qed.

End SessionContents.

(** ** [TimeFrom] at any distance *)

Section TimeFromMore.
Context `{P : Platform}.
Import Ints TimeLib.
Implicit Types (e : TidalEvent) (t : Z).


(** X13. [TimeFrom] depends only on how far the time is from the event, not
    on the direction nor on the event: equal distances give equal results.
    In particular it is the same before and after the event, and the same
    when the event and the time change places. *)
Theorem TimeFrom_depends_on_distance e1 e2 t1 t2 :
  Z.abs (epochTime e1 - t1) = Z.abs (epochTime e2 - t2) ->
  TimeFrom e1 t1 = TimeFrom e2 t2.
Proof. intros H. rewrite !TimeFrom_closed_form, H. reflexivity. Qed.

(** X14. Up to one day [TimeFrom] gives the distance to the minute: the
    hours and minutes it returns, put back together, are at most the
    distance and less than a minute below it, with the hours under 24 and
    the minutes under 60. *)
Theorem TimeFrom_exact_within_a_day e t :
  Z.abs (epochTime e - t) < 86400 ->
  0 <= Hour (TimeFrom e t) < 24
  /\ 0 <= Minute (TimeFrom e t) < 60
  /\ Hour (TimeFrom e t) * 3600 + Minute (TimeFrom e t) * 60 <= Z.abs (epochTime e - t)
  /\ Z.abs (epochTime e - t) < Hour (TimeFrom e t) * 3600 + Minute (TimeFrom e t) * 60 + 60.
Proof.
  intros Hd. rewrite TimeFrom_closed_form. cbn [Hour Minute].
  set (d := Z.abs (epochTime e - t)) in *.
  assert (0 <= d) by (subst d; lia).
  rewrite (Z.mod_small d 86400) by lia.
  Z.to_euclidean_division_equations. lia.
Qed.



End TimeFromMore.

Lemma TimeFrom_depends_on_distance_witness :
  Z.abs (epochTime (Samples.tide_at 200) - 260)
  = Z.abs (epochTime (Samples.tide_at 300) - 240)
  /\ TimeFrom (Samples.tide_at 200) 260 = TimeFrom (Samples.tide_at 300) 240.
Proof.
  assert (H : Z.abs (epochTime (Samples.tide_at 200) - 260)
              = Z.abs (epochTime (Samples.tide_at 300) - 240)) by reflexivity.
  split; [exact H|].
  exact (TimeFrom_depends_on_distance (Samples.tide_at 200) (Samples.tide_at 300) 260 240 H).
Defined.

Lemma TimeFrom_exact_within_a_day_witness :
  Z.abs (epochTime (Samples.tide_at 200) - 8000) < 86400
  /\ 0 <= TimeLib.Hour (TimeFrom (Samples.tide_at 200) 8000) < 24.
Proof.
  assert (H : Z.abs (epochTime (Samples.tide_at 200) - 8000) < 86400) by (cbn; lia).
  split; [exact H|].
  exact (proj1 (TimeFrom_exact_within_a_day (Samples.tide_at 200) 8000 H)).
Defined.


(** ** [makeTime] over its whole range *)

Section MakeTimeRange.
Import Ints TimeLib Calendar.

(** For the years 1970..2105 and the twelve months the two loops of
    [makeTime] give the calendar's count of days, by evaluation of every
    case; the sum stays below [2 ^ 32]. *)
Lemma month_start_table_2105 :
  forallb (fun y =>
    forallb (fun m =>
      let v := month_start_seconds (Z.of_nat y) (Z.of_nat m) in
      (v =? Gregorian.days_from_epoch (1970 + Z.of_nat y) (Z.of_nat m) 1 * 86400)
      && (0 <=? v) && (v <=? 4289068800))
      (seq 1 12))
    (seq 0 136) = true.
Proof. vm_compute. reflexivity. Qed.

Lemma month_start_seconds_2105 y m :
  0 <= y <= 135 -> 1 <= m <= 12 ->
  month_start_seconds y m = Gregorian.days_from_epoch (1970 + y) m 1 * 86400
  /\ 0 <= month_start_seconds y m <= 4289068800.
Proof.
  intros Hy Hm. pose proof month_start_table_2105 as T.
  rewrite forallb_forall in T.
  specialize (T (Z.to_nat y) ltac:(apply in_seq; lia)).
  rewrite forallb_forall in T.
  specialize (T (Z.to_nat m) ltac:(apply in_seq; lia)).
  cbv zeta in T. rewrite !Z2Nat.id in T by lia.
  apply andb_prop in T as [T T3]. apply andb_prop in T as [T1 T2].
  apply Z.eqb_eq in T1. apply Z.leb_le in T2, T3. lia.
Qed.

Lemma makeTime_seconds bits tm :
  valid_tm 135 tm ->
  makeTime bits tm = wrap_signed bits (instant tm)
  /\ 0 <= instant tm < 4291747200.
Proof.
  intros (Hy & [Hm Hd] & (Hhh & Hmm & Hss)).
  pose proof (days_in_month_le (1970 + Year tm) (Month tm)) as Hdm.
  destruct (month_start_seconds_2105 (Year tm) (Month tm) Hy Hm) as [E R].
  assert (U : instant tm
              = month_start_seconds (Year tm) (Month tm) + (Day tm - 1) * 86400
                + Hour tm * 3600 + Minute tm * 60 + Second tm).
  { rewrite E. unfold instant, Gregorian.utc_epoch, Gregorian.days_from_epoch. lia. }
  split; [|lia].
  unfold makeTime. fold (month_start_seconds (Year tm) (Month tm)).
  set (s0 := month_start_seconds (Year tm) (Month tm)) in *.
  change SECS_PER_DAY with 86400. change SECS_PER_HOUR with 3600.
  change SECS_PER_MIN with 60.
  rewrite (uint32_t_small (s0 + (Day tm - 1) * 86400)) by lia.
  rewrite (uint32_t_small (s0 + (Day tm - 1) * 86400 + Hour tm * 3600)) by lia.
  rewrite (uint32_t_small (s0 + (Day tm - 1) * 86400 + Hour tm * 3600
                           + Minute tm * 60)) by lia.
  rewrite (uint32_t_small (s0 + (Day tm - 1) * 86400 + Hour tm * 3600
                           + Minute tm * 60 + Second tm)) by lia.
  rewrite U. reflexivity.
Qed.

(** X16. For the calendar fields of any instant from 1970 to the end of
    2105, [makeTime] computes the seconds of the Gregorian calendar in its
    32-bit sum without wrapping.  With a [time_t] wider than 32 bits the
    result is that number; with a 32-bit [time_t] it is that number up to
    [2 ^ 31 - 1], 03:14:07 on 19 January 2038, and that number less [2 ^ 32],
    a negative time, from the next second on. *)
Theorem makeTime_range bits tm :
  32 <= bits -> valid_tm 135 tm ->
  makeTime bits tm = wrap_signed bits (instant tm)
  /\ (33 <= bits -> makeTime bits tm = instant tm)
  /\ (bits = 32 -> instant tm < 2 ^ 31 -> makeTime bits tm = instant tm)
  /\ (bits = 32 -> 2 ^ 31 <= instant tm ->
        makeTime bits tm = instant tm - 2 ^ 32 /\ makeTime bits tm < 0).
Proof.
  intros Hb Hv. destruct (makeTime_seconds bits tm Hv) as [E R].
  split; [exact E|]. rewrite E. split; [|split].
  - intros Hb'. apply wrap_signed_small; [lia|].
    assert (2 ^ 32 <= 2 ^ (bits - 1)) by (apply Z.pow_le_mono_r; lia).
    change (2 ^ 32) with 4294967296 in *. lia.
  - intros -> Hlt. apply wrap_signed_small; [lia|].
    change (2 ^ (32 - 1)) with (2 ^ 31). change (2 ^ 31) with 2147483648 in *. lia.
  - intros -> Hge. unfold wrap_signed.
    change (2 ^ (32 - 1)) with 2147483648. change (2 ^ 32) with 4294967296.
    change (2 ^ 31) with 2147483648 in Hge.
    replace (instant tm + 2147483648)
      with (instant tm - 2147483648 + 1 * 4294967296) by lia.
    rewrite Z.mod_add by lia. rewrite Z.mod_small by lia. lia.
Qed.

(** The first day of each month from January 1970 to December 2105 is the
    first day of the month before plus the length of that month, by
    evaluation of every case. *)
Lemma month_chain_table :
  forallb (fun k =>
    (month_start_day (Z.of_nat k + 1) =? month_start_day (Z.of_nat k) + month_length (Z.of_nat k))
    && (28 <=? month_length (Z.of_nat k)))
    (seq 0 1632) = true.
Proof. vm_compute. reflexivity. Qed.

Lemma month_chain k :
  0 <= k < 1632 ->
  month_start_day (k + 1) = month_start_day k + month_length k
  /\ 28 <= month_length k.
Proof.
  intros Hk. pose proof month_chain_table as T. rewrite forallb_forall in T.
  specialize (T (Z.to_nat k) ltac:(apply in_seq; lia)).
  rewrite !Z2Nat.id in T by lia.
  apply andb_prop in T as [T1 T2]. apply Z.eqb_eq in T1. apply Z.leb_le in T2.
  split; assumption.
Qed.

Lemma month_starts_increase k1 n :
  0 <= k1 -> k1 + Z.of_nat n < 1632 ->
  month_start_day k1 + month_length k1 <= month_start_day (k1 + 1 + Z.of_nat n).
Proof.
  intros Hk1. induction n as [|n IH]; intros Hk2.
  - replace (k1 + 1 + Z.of_nat 0) with (k1 + 1) by lia.
    destruct (month_chain k1) as [E _]; lia.
  - specialize (IH ltac:(lia)).
    destruct (month_chain (k1 + 1 + Z.of_nat n)) as [E L]; [lia|].
    replace (k1 + 1 + Z.of_nat (S n)) with (k1 + 1 + Z.of_nat n + 1) by lia.
    lia.
Qed.

Lemma month_index_fields y m :
  0 <= y -> 1 <= m <= 12 ->
  month_index y m / 12 = y /\ month_index y m mod 12 + 1 = m.
Proof.
  intros Hy Hm. unfold month_index. Z.to_euclidean_division_equations. lia.
Qed.

Lemma instant_increases a b :
  valid_tm 135 a -> valid_tm 135 b -> tm_before a b -> instant a < instant b.
Proof.
  intros (Hya & [Hma Hda] & Hta) (Hyb & [Hmb Hdb] & Htb) Hlt.
  assert (Sa : 0 <= second_of_day a < 86400)
    by (unfold second_of_day; destruct Hta as (? & ? & ?); lia).
  assert (Sb : 0 <= second_of_day b < 86400)
    by (unfold second_of_day; destruct Htb as (? & ? & ?); lia).
  assert (Ia : instant a
               = (Gregorian.days_from_epoch (1970 + Year a) (Month a) 1 + (Day a - 1)) * 86400
                 + second_of_day a).
  { unfold instant, Gregorian.utc_epoch, Gregorian.days_from_epoch, second_of_day. lia. }
  assert (Ib : instant b
               = (Gregorian.days_from_epoch (1970 + Year b) (Month b) 1 + (Day b - 1)) * 86400
                 + second_of_day b).
  { unfold instant, Gregorian.utc_epoch, Gregorian.days_from_epoch, second_of_day. lia. }
  rewrite Ia, Ib.
  destruct (month_index_fields (Year a) (Month a)) as [Ya Ma]; [lia|lia|].
  destruct (month_index_fields (Year b) (Month b)) as [Yb Mb]; [lia|lia|].
  set (ka := month_index (Year a) (Month a)) in *.
  set (kb := month_index (Year b) (Month b)) in *.
  assert (Da : Gregorian.days_from_epoch (1970 + Year a) (Month a) 1 = month_start_day ka).
  { unfold month_start_day. rewrite Ya, Ma. reflexivity. }
  assert (Db : Gregorian.days_from_epoch (1970 + Year b) (Month b) 1 = month_start_day kb).
  { unfold month_start_day. rewrite Yb, Mb. reflexivity. }
  assert (La : Gregorian.days_in_month (1970 + Year a) (Month a) = month_length ka).
  { unfold month_length. rewrite Ya, Ma. reflexivity. }
  rewrite Da, Db. rewrite La in Hda.
  assert (Ka : 0 <= ka < 1632) by (subst ka; unfold month_index; lia).
  assert (Kb : 0 <= kb < 1632) by (subst kb; unfold month_index; lia).
  assert (Cases : ka < kb
                  \/ (ka = kb /\ (Day a < Day b
                        \/ (Day a = Day b /\ second_of_day a < second_of_day b)))).
  { subst ka kb. unfold month_index.
    destruct Hlt as [H|(H & [H'|(H' & H'')])]; [left; lia|left; lia|right].
    split; [lia|exact H'']. }
  destruct Cases as [Hk|(Hk & Hd)].
  - pose proof (month_starts_increase ka (Z.to_nat (kb - ka - 1)) ltac:(lia) ltac:(lia)) as M.
    replace (ka + 1 + Z.of_nat (Z.to_nat (kb - ka - 1))) with kb in M by lia.
    nia.
  - rewrite Hk. destruct Hd as [Hd|(Hd & Hs)]; nia.
Qed.

(** X17. [makeTime] keeps the order of the calendar: of two instants
    between 1970 and 19 January 2038, the one that is earlier by year,
    month, day and time of day has the smaller epoch time, so a feed whose
    timestamps ascend gives ascending epoch times. *)
Theorem makeTime_keeps_calendar_order bits a b :
  32 <= bits -> valid_tm 135 a -> valid_tm 135 b ->
  instant b < 2 ^ 31 ->
  tm_before a b ->
  makeTime bits a < makeTime bits b.
Proof.
  intros Hb Ha Hvb Hmax Hlt.
  pose proof (instant_increases a b Ha Hvb Hlt) as Hinc.
  destruct (makeTime_seconds bits a Ha) as [Ea Ra].
  destruct (makeTime_seconds bits b Hvb) as [Eb Rb].
  assert (2 ^ 31 <= 2 ^ (bits - 1)) by (apply Z.pow_le_mono_r; lia).
  rewrite Ea, Eb, !wrap_signed_small by lia. exact Hinc.
Qed.

End MakeTimeRange.

(** ** The conversion on any text *)

Section ConversionOffsets.
Import Ints TimeLib.

Lemma string_of_length_2 s :
  String.length s = 2%nat -> exists a b, s = String a (String b EmptyString).
Proof.
  destruct s as [|a [|b [|x s]]]; cbn; intros H; try discriminate H.
  exists a, b. reflexivity.
Qed.

Lemma string_of_length_4 s :
  String.length s = 4%nat ->
  exists a b x y, s = String a (String b (String x (String y EmptyString))).
Proof.
  destruct s as [|a [|b [|x [|y [|z s]]]]]; cbn; intros H; try discriminate H.
  exists a, b, x, y. reflexivity.
Qed.

(** X18. The conversion reads six fields at fixed places and nothing else:
    for any four characters, then five groups of one character and two
    characters, then any rest, each field is [toInt] of its group, whatever
    the five separating characters and the rest are.  The groups need not
    be digits. *)
Theorem convertFromIso8601_reads_fixed_offsets
    (year month day hour minute second rest : string) (s1 s2 s3 s4 s5 : ascii)
    (tm_data : tmElements_t) :
  String.length year = 4%nat -> String.length month = 2%nat ->
  String.length day = 2%nat -> String.length hour = 2%nat ->
  String.length minute = 2%nat -> String.length second = 2%nat ->
  convertFromIso8601
    (String.append year (String s1
      (String.append month (String s2
        (String.append day (String s3
          (String.append hour (String s4
            (String.append minute (String s5
              (String.append second rest)))))))))))
    tm_data
  = mk_tm (uint8_t (Arduino.toInt second)) (uint8_t (Arduino.toInt minute))
          (uint8_t (Arduino.toInt hour)) (Wday tm_data)
          (uint8_t (Arduino.toInt day)) (uint8_t (Arduino.toInt month))
          (uint8_t (Arduino.toInt year - 1970)).
Proof.
  intros Hy Hmo Hd Hh Hmi Hs.
  destruct (string_of_length_4 year Hy) as (y1 & y2 & y3 & y4 & ->).
  destruct (string_of_length_2 month Hmo) as (m1 & m2 & ->).
  destruct (string_of_length_2 day Hd) as (d1 & d2 & ->).
  destruct (string_of_length_2 hour Hh) as (h1 & h2 & ->).
  destruct (string_of_length_2 minute Hmi) as (i1 & i2 & ->).
  destruct (string_of_length_2 second Hs) as (c1 & c2 & ->).
  cbn [String.append]. unfold convertFromIso8601.
  match goal with
  | |- context [Arduino.substring 17 19 ?text] =>
      assert (E6 : Arduino.substring 17 19 text = String c1 (String c2 EmptyString))
        by (destruct rest; reflexivity);
      rewrite E6
  end.
  reflexivity.
Qed.

End ConversionOffsets.

Lemma convertFromIso8601_reads_fixed_offsets_witness :
  String.length "2018" = 4%nat
  /\ convertFromIso8601 "2018/10/17 05h12m00s UTC" TimeLib.tm_zero
     = TimeLib.mk_tm 0 12 5 0 17 10 48.
Proof.
  split; [reflexivity|].
  exact (convertFromIso8601_reads_fixed_offsets
           "2018" "10" "17" "05" "12" "00" "s UTC" "/" "/" " " "h" "m"
           TimeLib.tm_zero eq_refl eq_refl eq_refl eq_refl eq_refl eq_refl).
Defined.

(** ** The fetch *)

Section FetchFacts.
Context `{P : Platform} `{X : Externals}.
Implicit Types (o : ApiClientObject) (net : network).

Lemma read_headers_calls lines call :
  In call (read_headers lines) ->
  call = call_connected \/ call = call_readStringUntil "010"%char.
Proof.
  induction lines as [|line lines IH]; cbn [read_headers].
  - intros [<-|[]]. left. reflexivity.
  - intros [<-|[<-|H]]; [left; reflexivity|right; reflexivity|].
    destruct (String.eqb line _); [destruct H|apply IH, H].
Qed.

Lemma read_body_calls chars o call :
  In call (fst (read_body chars o)) -> call = call_available \/ call = call_read.
Proof.
  revert o. induction chars as [|ch chars IH]; intros o; cbn [read_body].
  - intros [<-|[]]. left. reflexivity.
  - specialize (IH (jsonParser_parse ch o)).
    destruct (read_body chars (jsonParser_parse ch o)) as [calls o'].
    cbn [fst] in *. intros [<-|[<-|H]]; [left; reflexivity|right; reflexivity|].
    apply IH, H.
Qed.

Lemma read_body_object chars o :
  store (snd (read_body chars o)) = parse (body_calls (jsonParser o) chars) (store o)
  /\ validateSslThumbprint (snd (read_body chars o)) = validateSslThumbprint o
  /\ stationId (snd (read_body chars o)) = stationId o
  /\ apiSubscriptionKey (snd (read_body chars o)) = apiSubscriptionKey o.
Proof.
  revert o. induction chars as [|ch chars IH]; intros o; cbn [read_body body_calls].
  - repeat split.
  - specialize (IH (jsonParser_parse ch o)).
    destruct (read_body chars (jsonParser_parse ch o)) as [calls o'].
    cbn [snd] in *. unfold jsonParser_parse in IH.
    destruct (parser_parse (jsonParser o) ch) as [ps made].
    cbn [store jsonParser validateSslThumbprint stationId apiSubscriptionKey] in IH.
    rewrite parse_app. exact IH.
Qed.

Lemma printed_app calls1 calls2 :
  printed (calls1 ++ calls2) = printed calls1 ++ printed calls2.
Proof. unfold printed. apply flat_map_app. Qed.

Lemma printed_none calls :
  (forall line, ~ In (call_println line) calls) -> printed calls = [].
Proof.
  induction calls as [|call calls IH]; intros H; [reflexivity|].
  unfold printed in *. cbn [flat_map].
  rewrite IH by (intros line Hin; apply (H line); right; exact Hin).
  destruct call; try reflexivity. exfalso. apply (H line). left. reflexivity.
Qed.

Lemma printed_println lines : printed (map call_println lines) = lines.
Proof.
  induction lines as [|line lines IH]; [reflexivity|].
  unfold printed in *. cbn [map flat_map app]. rewrite IH. reflexivity.
Qed.

Lemma exchange_run net numberDays o :
  printed (fst (exchange net numberDays o)) = request_lines numberDays o
  /\ last (fst (exchange net numberDays o)) = Some call_stop
  /\ (forall t h, ~ In (call_verify t h) (fst (exchange net numberDays o)))
  /\ ~ In call_setInsecure (fst (exchange net numberDays o))
  /\ store (snd (exchange net numberDays o))
     = parse (body_calls (jsonParser o) (body net)) (store o).
Proof.
  unfold exchange.
  pose proof (read_body_calls (body net) o) as Hb.
  pose proof (read_body_object (body net) o) as (Hs & _).
  destruct (read_body (body net) o) as [calls o']. cbn [fst snd] in *.
  assert (Hin : forall call,
    In call (map call_println (request_lines numberDays o)
               ++ read_headers (header_lines net) ++ calls ++ [call_stop]) ->
    (exists line, call = call_println line) \/ call = call_connected
    \/ call = call_readStringUntil "010"%char \/ call = call_available
    \/ call = call_read \/ call = call_stop).
  { intros call Hc. apply in_app_iff in Hc as [Hc|Hc].
    - apply in_map_iff in Hc as (line & <- & _). left. exists line. reflexivity.
    - apply in_app_iff in Hc as [Hc|Hc].
      + apply read_headers_calls in Hc. tauto.
      + apply in_app_iff in Hc as [Hc|[<-|[]]]; [apply Hb in Hc|]; tauto. }
  split; [|split; [|split; [|split]]].
  - rewrite !printed_app, printed_println.
    rewrite (printed_none (read_headers (header_lines net))),
            (printed_none calls), app_nil_r.
    + reflexivity.
    + intros line Hc. apply Hb in Hc. destruct Hc; discriminate.
    + intros line Hc. apply read_headers_calls in Hc. destruct Hc; discriminate.
  - rewrite !app_assoc. apply last_snoc.
  - intros t h Hc. apply Hin in Hc.
    destruct Hc as [[line Hc]|[Hc|[Hc|[Hc|[Hc|Hc]]]]]; discriminate.
  - intros Hc. apply Hin in Hc.
    destruct Hc as [[line Hc]|[Hc|[Hc|[Hc|[Hc|Hc]]]]]; discriminate.
  - exact Hs.
Qed.

(** X19. When the host does not resolve, the connection is refused, or the
    thumbprint validation is on and fails, [FetchTidalEvents] returns the
    matching failure status having written nothing to the connection, so
    the subscription key is not sent; it has fed nothing to the parser and
    the client object, with its stored events, is as before. *)
Theorem failed_fetch_sends_nothing net numberDays o :
  resolves net = None \/ connects net = false
  \/ (validateSslThumbprint o = true /\ verifies net = false) ->
  snd (FetchTidalEvents net numberDays o) = o
  /\ printed (snd (fst (FetchTidalEvents net numberDays o))) = []
  /\ ~ In call_read (snd (fst (FetchTidalEvents net numberDays o)))
  /\ (resolves net = None ->
        fst (fst (FetchTidalEvents net numberDays o)) = ADMIRALTY_API_HOSTBYNAME_FAILED)
  /\ (resolves net <> None -> connects net = false ->
        fst (fst (FetchTidalEvents net numberDays o)) = ADMIRALTY_API_CONNECT_FAILED)
  /\ (resolves net <> None -> connects net = true ->
        fst (fst (FetchTidalEvents net numberDays o))
        = ADMIRALTY_API_SSL_VALIDATION_FAILED).
Proof.
  intros H. unfold FetchTidalEvents.
  destruct (resolves net) as [ip|] eqn:Er.
  - destruct (connects net) eqn:Ec.
    + destruct H as [H|[H|[Hv Hf]]]; try discriminate H.
      rewrite Hv, Hf. cbn [fst snd app printed flat_map In].
      repeat split; try congruence.
      intros [Hc|[Hc|[Hc|[]]]]; discriminate Hc.
    + cbn [fst snd]. repeat split; try congruence.
      * destruct (validateSslThumbprint o); reflexivity.
      * destruct (validateSslThumbprint o); cbn [app In];
          intros Hc; repeat (destruct Hc as [Hc|Hc]; try discriminate Hc); exact Hc.
  - cbn [fst snd printed flat_map In]. repeat split; try congruence.
    intros [Hc|[]]; discriminate Hc.
Qed.

(** X20. When the host resolves, the connection is accepted and the
    thumbprint validation is off or succeeds, [FetchTidalEvents] returns the
    success status whatever the server sends back.  It has written exactly
    the five lines of the request, closed the connection last, and given the
    listener the calls the parser makes for the body; the number of days in
    the request reads back as [numberDays] modulo 256. *)
Theorem accepted_fetch_succeeds net numberDays o ip :
  resolves net = Some ip -> connects net = true ->
  (validateSslThumbprint o = true -> verifies net = true) ->
  fst (fst (FetchTidalEvents net numberDays o)) = ADMIRALTY_API_SUCCESS
  /\ printed (snd (fst (FetchTidalEvents net numberDays o))) = request_lines numberDays o
  /\ last (snd (fst (FetchTidalEvents net numberDays o))) = Some call_stop
  /\ store (snd (FetchTidalEvents net numberDays o))
     = parse (body_calls (jsonParser o) (body net)) (store o)
  /\ Arduino.toInt (String_of_uint8 numberDays) = Ints.uint8_t numberDays.
Proof.
  intros Er Ec Hv. unfold FetchTidalEvents. rewrite Er, Ec. cbv zeta.
  destruct (exchange_run net numberDays o) as (Hp & Hl & _ & _ & Hs).
  assert (Hlast : forall calls,
            last (calls ++ fst (exchange net numberDays o)) = Some call_stop).
  { intros calls. rewrite last_app, Hl. reflexivity. }
  assert (Hdec : Arduino.toInt (String_of_uint8 numberDays) = Ints.uint8_t numberDays).
  { unfold String_of_uint8, Arduino.toInt.
    pose proof (uint8_t_range numberDays) as R.
    set (n := Ints.uint8_t numberDays) in *.
    destruct (Z.ltb_spec n 10); [|destruct (Z.ltb_spec n 100)].
    - rewrite atol_digit_first, atol_digits_digit by lia. cbn [Arduino.atol_digits]. lia.
    - assert (0 <= n / 10 < 10) by (Z.to_euclidean_division_equations; lia).
      assert (0 <= n mod 10 < 10) by (Z.to_euclidean_division_equations; lia).
      rewrite atol_digit_first, !atol_digits_digit by assumption.
      cbn [Arduino.atol_digits]. Z.to_euclidean_division_equations; lia.
    - assert (0 <= n / 100 < 10) by (Z.to_euclidean_division_equations; lia).
      assert (0 <= n / 10 mod 10 < 10) by (Z.to_euclidean_division_equations; lia).
      assert (0 <= n mod 10 < 10) by (Z.to_euclidean_division_equations; lia).
      rewrite atol_digit_first, !atol_digits_digit by assumption.
      cbn [Arduino.atol_digits]. Z.to_euclidean_division_equations; lia. }
  destruct (validateSslThumbprint o) eqn:Ev.
  - rewrite (Hv eq_refl).
    destruct (exchange net numberDays o) as [rest o'] eqn:Ex. cbn [fst snd] in *.
    repeat split; try assumption. apply Hlast.
  - destruct (exchange net numberDays o) as [rest o'] eqn:Ex. cbn [fst snd] in *.
    repeat split; try assumption. apply Hlast.
Qed.

(** X21. A client as its constructor leaves it never checks the server's
    thumbprint: [FetchTidalEvents] makes no call of [verify], switches the
    connection to insecure mode before connecting whenever the host
    resolves, and its status, its calls and its effect are the same whatever
    [verify] would have answered. *)
Theorem constructed_client_skips_verification members net numberDays :
  let o := AdmiraltyApiClient_new members in
  (forall t h, ~ In (call_verify t h) (snd (fst (FetchTidalEvents net numberDays o))))
  /\ (forall ip, resolves net = Some ip ->
        exists rest,
          snd (fst (FetchTidalEvents net numberDays o))
          = call_hostByName ADMIRALTY_API_HOST :: call_setInsecure
              :: call_connect ip 443 :: rest)
  /\ (forall answer,
        FetchTidalEvents
          (mk_network (resolves net) (connects net) answer (header_lines net) (body net))
          numberDays o
        = FetchTidalEvents net numberDays o).
Proof.
  cbv zeta. unfold FetchTidalEvents. cbn [AdmiraltyApiClient_new validateSslThumbprint
    resolves connects verifies].
  split; [|split].
  - intros t h. destruct (resolves net) as [ip|].
    + destruct (connects net).
      * pose proof (exchange_run net numberDays (AdmiraltyApiClient_new members))
          as (_ & _ & Hnv & _).
        unfold AdmiraltyApiClient_new in Hnv.
        destruct (exchange net numberDays _) as [rest o']. cbn [fst snd app In] in *.
        intros [Hc|[Hc|[Hc|Hc]]]; try discriminate Hc. apply (Hnv t h Hc).
      * cbn [fst snd app In]. intros [Hc|[Hc|[Hc|[]]]]; discriminate Hc.
    + cbn [fst snd In]. intros [Hc|[]]; discriminate Hc.
  - intros ip ->. destruct (connects net).
    + destruct (exchange net numberDays _) as [rest o']. cbn [fst snd app].
      exists rest. reflexivity.
    + cbn [fst snd app]. exists []. reflexivity.
  - intros answer. reflexivity.
Qed.


End FetchFacts.

(** ** The further properties on sample data *)

Lemma PreviousTidalEvent_stops_at_first_later_witness :
  (50 < epochTime (Samples.tide_at 100))
  /\ PreviousTidalEvent Samples.three_tides 50 = TidalEvent_default.
Proof.
  assert (H : 50 < epochTime (Samples.tide_at 100)) by (cbn; lia).
  split; [exact H|].
  exact (proj2 (proj2 (PreviousTidalEvent_stops_at_first_later Samples.three_tides 50))
           (Samples.tide_at 100) [Samples.tide_at 200; Samples.tide_at 300] eq_refl H).
Defined.

Lemma queries_cut_the_store_witness :
  chronological Samples.three_tides
  /\ exists before after,
       entries Samples.three_tides = before ++ after
       /\ Forall (fun e => epochTime e <= 200) before
       /\ Forall (fun e => 200 < epochTime e) after
       /\ PreviousTidalEvent Samples.three_tides 200
          = default TidalEvent_default (last before)
       /\ NextTidalEvent Samples.three_tides 200
          = default TidalEvent_default (head after).
Proof.
  assert (H : chronological Samples.three_tides).
  { unfold chronological. cbn. repeat constructor; cbn; lia. }
  split; [exact H|].
  exact (queries_cut_the_store Samples.three_tides 200 H).
Defined.

Lemma isValid_tells_found_witness :
  Forall (fun e => isValid e = true) (entries Samples.three_tides)
  /\ (isValid (NextTidalEvent Samples.three_tides 200) = true
      <-> exists e, In e (entries Samples.three_tides) /\ 200 < epochTime e).
Proof.
  assert (H : Forall (fun e => isValid e = true) (entries Samples.three_tides)).
  { cbn. repeat constructor. }
  split; [exact H|].
  exact (proj1 (isValid_tells_found Samples.three_tides 200 H)).
Defined.

Lemma object_last_value_wins_witness :
  (eventIndex (fresh_client (P := esp8266))
   < length (tidalEvents (fresh_client (P := esp8266))))%nat
  /\ tidalEvents (parse (P := esp8266) (object_calls [("Height", "4.2")]%string) fresh_client)
       !! 0%nat
     = assembled [("Height", "4.2")]%string
         <$> tidalEvents (fresh_client (P := esp8266)) !! 0%nat.
Proof.
  assert (H : (eventIndex (fresh_client (P := esp8266))
               < length (tidalEvents (fresh_client (P := esp8266))))%nat).
  { cbn. lia. }
  split; [exact H|].
  exact (proj1 (object_last_value_wins (P := esp8266)
                  [("Height", "4.2")]%string fresh_client H)).
Defined.

Lemma field_order_is_irrelevant_witness :
  List.NoDup (map fst [("EventType", "LowWater"); ("Height", "1.1")]%string)
  /\ Permutation [("EventType", "LowWater"); ("Height", "1.1")]%string
                 [("Height", "1.1"); ("EventType", "LowWater")]%string
  /\ tidalEvents (parse (P := esp8266)
                    (object_calls [("Height", "1.1"); ("EventType", "LowWater")]%string)
                    fresh_client)
     = tidalEvents (parse (P := esp8266)
                      (object_calls [("EventType", "LowWater"); ("Height", "1.1")]%string)
                      fresh_client).
Proof.
  assert (H1 : List.NoDup (map fst [("EventType", "LowWater"); ("Height", "1.1")]%string)).
  { cbn. constructor; [|constructor; [|constructor]]; cbn; intuition discriminate. }
  assert (H2 : Permutation [("EventType", "LowWater"); ("Height", "1.1")]%string
                           [("Height", "1.1"); ("EventType", "LowWater")]%string).
  { apply perm_swap. }
  split; [exact H1|]. split; [exact H2|].
  exact (proj1 (field_order_is_irrelevant (P := esp8266) _ _ fresh_client H1 H2)).
Defined.

Lemma listener_stays_in_bounds_witness :
  store_invariant (fresh_client (P := esp8266))
  /\ (eventIndex (parse (P := esp8266) Samples.truncated_stream fresh_client)
      < length (tidalEvents (parse (P := esp8266) Samples.truncated_stream fresh_client)))%nat.
Proof.
  assert (H1 : store_invariant (fresh_client (P := esp8266))).
  { unfold store_invariant. cbn. lia. }
  assert (H2 : (numberEvents (fresh_client (P := esp8266))
                <= eventIndex (fresh_client (P := esp8266)))%nat) by (cbn; lia).
  assert (H3 : (1 <= MAX_COUNT_TIDAL_EVENTS (Platform := esp8266))%nat) by (cbn; lia).
  split; [exact H1|].
  exact (proj1 (proj2 (listener_stays_in_bounds (P := esp8266)
                         fresh_client Samples.truncated_stream H1 H2 H3))).
Defined.

Lemma published_entries_are_frozen_witness :
  (numberEvents Samples.three_tides <= eventIndex Samples.three_tides)%nat
  /\ within_document (object_calls Samples.low_water)
  /\ entries (parse (object_calls Samples.low_water) Samples.three_tides)
     = entries Samples.three_tides.
Proof.
  assert (H1 : (numberEvents Samples.three_tides <= eventIndex Samples.three_tides)%nat)
    by (cbn; lia).
  assert (H2 : within_document (object_calls Samples.low_water)) by (repeat constructor).
  split; [exact H1|]. split; [exact H2|].
  exact (proj1 (published_entries_are_frozen Samples.three_tides _ H1 H2)).
Defined.

Lemma published_entries_are_valid_witness :
  store_invariant (fresh_client (P := esp8266))
  /\ within_document Samples.truncated_stream
  /\ Forall (fun e => isValid e = true)
       (entries (parse (P := esp8266)
                   (on_startDocument :: Samples.truncated_stream ++ [on_endDocument])
                   fresh_client)).
Proof.
  assert (H1 : store_invariant (fresh_client (P := esp8266))).
  { unfold store_invariant. cbn. lia. }
  assert (H2 : within_document Samples.truncated_stream) by (repeat constructor).
  split; [exact H1|]. split; [exact H2|].
  exact (published_entries_are_valid (P := esp8266) fresh_client _ H1 H2).
Defined.

Lemma document_entries_witness :
  length (tidalEvents (fresh_client (P := esp8266)))
    = MAX_COUNT_TIDAL_EVENTS (Platform := esp8266)
  /\ length (entries (parse (P := esp8266)
                        (document_calls [Samples.high_water; Samples.low_water])
                        fresh_client)) = 2%nat.
Proof.
  assert (H : length (tidalEvents (fresh_client (P := esp8266)))
              = MAX_COUNT_TIDAL_EVENTS (Platform := esp8266)) by reflexivity.
  split; [exact H|].
  exact (eq_trans
           (f_equal length
              (document_entries (P := esp8266) fresh_client
                 [Samples.high_water; Samples.low_water] H))
           eq_refl).
Defined.

Lemma tidal_document_entries_witness :
  length (tidalEvents Samples.full_client) = MAX_COUNT_TIDAL_EVENTS (Platform := esp8266)
  /\ entries (parse (P := esp8266)
                (document_calls [tidal_object "LowWater" "2018-10-17T11:30:00" "1.1"])
                Samples.full_client)
     = [tidal_record (P := esp8266) "LowWater" "2018-10-17T11:30:00" "1.1"].
Proof.
  assert (H : length (tidalEvents Samples.full_client)
              = MAX_COUNT_TIDAL_EVENTS (Platform := esp8266)).
  { vm_compute. reflexivity. }
  split; [exact H|].
  exact (tidal_document_entries (P := esp8266) Samples.full_client
           [("LowWater", "2018-10-17T11:30:00", "1.1")]%string H).
Defined.

Lemma makeTime_range_witness :
  32 <= 32
  /\ Calendar.valid_tm 135 (TimeLib.mk_tm 0 25 17 0 17 10 48)
  /\ TimeLib.makeTime 32 (TimeLib.mk_tm 0 25 17 0 17 10 48)
     = Calendar.instant (TimeLib.mk_tm 0 25 17 0 17 10 48).
Proof.
  assert (H1 : 32 <= 32) by lia.
  assert (H2 : Calendar.valid_tm 135 (TimeLib.mk_tm 0 25 17 0 17 10 48)).
  { unfold Calendar.valid_tm, Gregorian.valid_date, Gregorian.valid_time. cbn. lia. }
  assert (H3 : Calendar.instant (TimeLib.mk_tm 0 25 17 0 17 10 48) < 2 ^ 31).
  { vm_compute. reflexivity. }
  split; [exact H1|]. split; [exact H2|].
  exact (proj1 (proj2 (proj2 (makeTime_range 32 _ H1 H2))) eq_refl H3).
Defined.

Lemma makeTime_keeps_calendar_order_witness :
  Calendar.tm_before (TimeLib.mk_tm 0 12 5 0 17 10 48) (TimeLib.mk_tm 0 30 11 0 17 10 48)
  /\ TimeLib.makeTime 32 (TimeLib.mk_tm 0 12 5 0 17 10 48)
     < TimeLib.makeTime 32 (TimeLib.mk_tm 0 30 11 0 17 10 48).
Proof.
  assert (H1 : 32 <= 32) by lia.
  assert (H2 : Calendar.valid_tm 135 (TimeLib.mk_tm 0 12 5 0 17 10 48)).
  { unfold Calendar.valid_tm, Gregorian.valid_date, Gregorian.valid_time. cbn. lia. }
  assert (H3 : Calendar.valid_tm 135 (TimeLib.mk_tm 0 30 11 0 17 10 48)).
  { unfold Calendar.valid_tm, Gregorian.valid_date, Gregorian.valid_time. cbn. lia. }
  assert (H4 : Calendar.instant (TimeLib.mk_tm 0 30 11 0 17 10 48) < 2 ^ 31).
  { vm_compute. reflexivity. }
  assert (H5 : Calendar.tm_before (TimeLib.mk_tm 0 12 5 0 17 10 48)
                                  (TimeLib.mk_tm 0 30 11 0 17 10 48)).
  { unfold Calendar.tm_before, Calendar.second_of_day. cbn. lia. }
  split; [exact H5|].
  exact (makeTime_keeps_calendar_order 32 _ _ H1 H2 H3 H4 H5).
Defined.

Lemma failed_fetch_sends_nothing_witness :
  resolves FetchSamples.unreachable = None
  /\ printed (snd (fst (FetchTidalEvents FetchSamples.unreachable 7
                          FetchSamples.sample_object))) = [].
Proof.
  assert (H : resolves FetchSamples.unreachable = None) by reflexivity.
  split; [exact H|].
  exact (proj1 (proj2 (failed_fetch_sends_nothing FetchSamples.unreachable 7
                         FetchSamples.sample_object (or_introl H)))).
Defined.

Lemma accepted_fetch_succeeds_witness :
  resolves FetchSamples.answering = Some 167772161
  /\ fst (fst (FetchTidalEvents FetchSamples.answering 7 FetchSamples.sample_object))
     = ADMIRALTY_API_SUCCESS.
Proof.
  assert (H1 : resolves FetchSamples.answering = Some 167772161) by reflexivity.
  assert (H2 : connects FetchSamples.answering = true) by reflexivity.
  split; [exact H1|].
  exact (proj1 (accepted_fetch_succeeds FetchSamples.answering 7
                  FetchSamples.sample_object 167772161 H1 H2 (fun _ => eq_refl))).
Defined.

Lemma constructed_client_skips_verification_witness :
  resolves FetchSamples.answering = Some 167772161
  /\ exists rest,
       snd (fst (FetchTidalEvents FetchSamples.answering 7
                   (AdmiraltyApiClient_new FetchSamples.sample_object)))
       = call_hostByName (ADMIRALTY_API_HOST (Externals := silent_parser))
           :: call_setInsecure :: call_connect 167772161 443 :: rest.
Proof.
  assert (H : resolves FetchSamples.answering = Some 167772161) by reflexivity.
  split; [exact H|].
  exact (proj1 (proj2 (constructed_client_skips_verification
                         FetchSamples.sample_object FetchSamples.answering 7))
           167772161 H).
Defined.


(** ** Timestamps and the range of the epoch time *)

Section TimestampRange.
Context `{P : Platform}.
Import Ints TimeLib Calendar.

Lemma formatted_fields_valid y m d hh mm ss :
  1970 <= y <= 2105 ->
  Gregorian.valid_date y m d -> Gregorian.valid_time hh mm ss ->
  valid_tm 135 (mk_tm ss mm hh 0 d m (y - 1970))
  /\ instant (mk_tm ss mm hh 0 d m (y - 1970)) = Gregorian.utc_epoch y m d hh mm ss.
Proof.
  intros Hy Hdate Htime. unfold valid_tm, instant.
  cbn [Year Month Day Hour Minute Second].
  replace (1970 + (y - 1970)) with y by lia.
  destruct Hdate as [Hm Hd]. destruct Htime as (Hhh & Hmm & Hss).
  unfold Gregorian.valid_date, Gregorian.valid_time.
  repeat split; solve [lia | assumption | reflexivity].
Qed.

(** C5. The timestamp ["2018-10-17T17:25:00"] converts to year 2018, month
    10, day 17, hour 17, minute 25 and second 0, and the record finalized
    from it has the epoch time of that instant in the proleptic Gregorian
    calendar, 1539797100.  The same holds for every timestamp of the form
    YYYY-MM-DDTHH:MM:SS, with any suffix, that names an instant from 1970 to
    the end of 2105 whose epoch time fits [time_t]: the year is stored as
    its offset from 1970 and the epoch time is the one of the calendar. *)
Theorem timestamp_conversion_matches_calendar :
  32 <= time_t_bits ->
  (forall tm_data,
     convertFromIso8601 "2018-10-17T17:25:00" tm_data
     = mk_tm 0 25 17 (Wday tm_data) 17 10 (2018 - 1970))
  /\ Gregorian.utc_epoch 2018 10 17 17 25 0 = 1539797100
  /\ (forall c eventType height,
        (eventIndex c < length (tidalEvents c))%nat ->
        epochTime <$> tidalEvents
            (parse (object_calls (tidal_object eventType "2018-10-17T17:25:00" height)) c)
            !! eventIndex c
        = Some (Gregorian.utc_epoch 2018 10 17 17 25 0))
  /\ (forall y m d hh mm ss suffix,
        1970 <= y <= 2105 ->
        Gregorian.valid_date y m d -> Gregorian.valid_time hh mm ss ->
        Gregorian.utc_epoch y m d hh mm ss < 2 ^ (time_t_bits - 1) ->
        (forall tm_data,
           convertFromIso8601 (Iso8601.format y m d hh mm ss suffix) tm_data
           = mk_tm ss mm hh (Wday tm_data) d m (y - 1970))
        /\ (forall c eventType height,
              (eventIndex c < length (tidalEvents c))%nat ->
              epochTime <$> tidalEvents
                  (parse (object_calls
                            (tidal_object eventType
                               (Iso8601.format y m d hh mm ss suffix) height)) c)
                  !! eventIndex c
              = Some (Gregorian.utc_epoch y m d hh mm ss))).
Proof.
  intros Hbits.
  assert (G : forall y m d hh mm ss suffix,
    1970 <= y <= 2105 ->
    Gregorian.valid_date y m d -> Gregorian.valid_time hh mm ss ->
    Gregorian.utc_epoch y m d hh mm ss < 2 ^ (time_t_bits - 1) ->
    (forall tm_data,
       convertFromIso8601 (Iso8601.format y m d hh mm ss suffix) tm_data
       = mk_tm ss mm hh (Wday tm_data) d m (y - 1970))
    /\ (forall c eventType height,
          (eventIndex c < length (tidalEvents c))%nat ->
          epochTime <$> tidalEvents
              (parse (object_calls
                        (tidal_object eventType
                           (Iso8601.format y m d hh mm ss suffix) height)) c)
              !! eventIndex c
          = Some (Gregorian.utc_epoch y m d hh mm ss))).
  { intros y m d hh mm ss suffix Hy Hdate Htime Hfit.
    pose proof (days_in_month_le y m) as Hdm.
    assert (C : forall tm_data,
      convertFromIso8601 (Iso8601.format y m d hh mm ss suffix) tm_data
      = mk_tm ss mm hh (Wday tm_data) d m (y - 1970)).
    { intros tm_data. destruct Hdate as [Hm Hd]. destruct Htime as (Hhh & Hmm & Hss).
      apply convertFromIso8601_format; lia. }
    split; [exact C|]. intros c eventType height Hi.
    rewrite tidal_object_assembled by exact Hi.
    cbn [fmap option_fmap option_map epochTime]. rewrite C. cbn [Wday tm_zero].
    destruct (formatted_fields_valid y m d hh mm ss Hy Hdate Htime) as [V I].
    destruct (makeTime_seconds time_t_bits _ V) as [E R].
    rewrite E, I in *. rewrite wrap_signed_small by lia. reflexivity. }
  assert (D : Gregorian.valid_date 2018 10 17) by (unfold Gregorian.valid_date; cbn; lia).
  assert (T : Gregorian.valid_time 17 25 0) by (unfold Gregorian.valid_time; lia).
  assert (F : Gregorian.utc_epoch 2018 10 17 17 25 0 < 2 ^ (time_t_bits - 1)).
  { assert (2 ^ 31 <= 2 ^ (time_t_bits - 1)) by (apply Z.pow_le_mono_r; lia).
    change (2 ^ 31) with 2147483648 in *.
    change (Gregorian.utc_epoch 2018 10 17 17 25 0) with 1539797100. lia. }
  destruct (G 2018 10 17 17 25 0 EmptyString ltac:(lia) D T F) as [G1 G2].
  split; [exact G1|]. split; [reflexivity|]. split; [exact G2|exact G].
Qed.

End TimestampRange.

(** C5, as the specification states it, fails outside this range.  The sum
    of [makeTime] has 32 bits: the timestamp of 7 February 2106, 06:28:16 is
    stored with epoch time 0 even where [time_t] has 64 bits.  With a 32-bit
    [time_t] the timestamp of 19 January 2038, 03:14:08 is stored with a
    negative epoch time.  The year is kept as an eight-bit offset from 1970:
    a timestamp of 1969 gets the offset 255, the year 2225. *)
Lemma timestamps_out_of_range :
  Iso8601.format 2106 2 7 6 28 16 EmptyString = "2106-02-07T06:28:16"%string
  /\ Gregorian.valid_date 2106 2 7 /\ Gregorian.valid_time 6 28 16
  /\ epochTime (P := wide_time_t) <$> tidalEvents
       (parse (P := wide_time_t)
          (object_calls (tidal_object "HighWater" "2106-02-07T06:28:16" "4.2"))
          fresh_client) !! 0%nat
     = Some 0
  /\ Gregorian.utc_epoch 2106 2 7 6 28 16 = 4294967296
  /\ Iso8601.format 2038 1 19 3 14 8 EmptyString = "2038-01-19T03:14:08"%string
  /\ Gregorian.valid_date 2038 1 19 /\ Gregorian.valid_time 3 14 8
  /\ epochTime (P := esp8266) <$> tidalEvents
       (parse (P := esp8266)
          (object_calls (tidal_object "HighWater" "2038-01-19T03:14:08" "4.2"))
          fresh_client) !! 0%nat
     = Some (-2147483648)
  /\ Gregorian.utc_epoch 2038 1 19 3 14 8 = 2147483648
  /\ Iso8601.format 1969 12 31 23 59 59 EmptyString = "1969-12-31T23:59:59"%string
  /\ TimeLib.Year (convertFromIso8601 "1969-12-31T23:59:59" TimeLib.tm_zero) = 255
  /\ 1970 + 255 <> 1969.
Proof.
  unfold Gregorian.valid_date, Gregorian.valid_time.
  repeat split; try (vm_compute; reflexivity); try (cbn; lia);
    vm_compute; discriminate.
Qed.

Lemma timestamp_conversion_matches_calendar_witness :
  32 <= time_t_bits (Platform := esp8266)
  /\ 1970 <= 2024 <= 2105
  /\ Gregorian.valid_date 2024 2 29 /\ Gregorian.valid_time 23 59 59
  /\ Gregorian.utc_epoch 2024 2 29 23 59 59 < 2 ^ (time_t_bits (Platform := esp8266) - 1)
  /\ epochTime (P := esp8266) <$> tidalEvents
       (parse (P := esp8266)
          (object_calls
             (tidal_object "HighWater" (Iso8601.format 2024 2 29 23 59 59 ".500") "4.2"))
          fresh_client) !! 0%nat
     = Some (Gregorian.utc_epoch 2024 2 29 23 59 59).
Proof.
  assert (H0 : 32 <= time_t_bits (Platform := esp8266)) by (cbn; lia).
  assert (H1 : 1970 <= 2024 <= 2105) by lia.
  assert (H2 : Gregorian.valid_date 2024 2 29).
  { unfold Gregorian.valid_date.
    change (Gregorian.days_in_month 2024 2) with 29. lia. }
  assert (H3 : Gregorian.valid_time 23 59 59).
  { unfold Gregorian.valid_time. lia. }
  assert (H4 : Gregorian.utc_epoch 2024 2 29 23 59 59
               < 2 ^ (time_t_bits (Platform := esp8266) - 1)).
  { vm_compute. reflexivity. }
  assert (H5 : (eventIndex (fresh_client (P := esp8266))
                < length (tidalEvents (fresh_client (P := esp8266))))%nat).
  { cbn. lia. }
  split; [exact H0|]. split; [exact H1|]. split; [exact H2|]. split; [exact H3|].
  split; [exact H4|].
  exact (proj2 (proj2 (proj2 (proj2 (timestamp_conversion_matches_calendar
                                       (P := esp8266) H0)))
                  2024 2 29 23 59 59 ".500"%string H1 H2 H3 H4)
           fresh_client "HighWater"%string "4.2"%string H5).
Defined.

Lemma TimeFrom_more_than_a_day_witness :
  32 <= time_t_bits (Platform := esp8266)
  /\ TimeLib.Hour (TimeFrom_time_t (Samples.tide_at 200) (200 + 90000)) = 1.
Proof.
  assert (H0 : 32 <= time_t_bits (Platform := esp8266)) by (cbn; lia).
  split; [exact H0|].
  exact (proj1 (proj2 (proj2 (proj2 (proj2 (proj2 (proj2
           (TimeFrom_more_than_a_day (Samples.tide_at 200) 0 H0)))))))).
Defined.

(** On a 32-bit [time_t] a distance of [2 ^ 31] seconds or more does not
    fit: the difference wraps to a negative number and the hours and minutes
    come from it. *)
Example TimeFrom_time_t_wraps :
  TimeFrom_time_t (P := esp8266) (Samples.tide_at (-2085978496)) 2000000000
  = TimeLib.mk_tm 0 230 236 0 0 0 0.
Proof. vm_compute. reflexivity. Qed.
